(** * The domain selector component: a shallow embedding

    Source: [addons/web/static/src/core/domain_selector/domain_selector.js],
    the [DomainSelector] class.  The component owns a tree of domain nodes
    (objects mutated in place), talks to a field-metadata service and
    notifies its owner through [props.update].  The embedding keeps these
    three things explicit: a store of node objects, and a small effect
    type whose events are the calls to the service and to the owner. *)

From Stdlib Require Import ZArith String.
From stdpp Require Import base option list gmap strings pretty.

Open Scope string_scope.
Set Warnings "-register-all".

(** ** JavaScript values *)

(** The values the component handles: the literals of a domain expression.
    Numbers are integers here, of a size that JavaScript prints digit by
    digit (below 10^21); the component never computes with them. *)
Inductive jsval : Type :=
| JUndefined
| JNull
| JBool (b : bool)
| JNum (z : Z)
| JStr (s : string)
| JArr (l : list jsval).

Module Js.

(** [String.prototype.includes]. *)
Fixpoint includes (s sub : string) : bool :=
  String.prefix sub s ||
  match s with
  | EmptyString => false
  | String _ s' => includes s' sub
  end.

(** [ToString] of a value; an array joins its elements with a comma,
    [null] and [undefined] elements giving the empty string. *)
Fixpoint to_string (v : jsval) : string :=
  match v with
  | JUndefined => "undefined"
  | JNull => "null"
  | JBool true => "true"
  | JBool false => "false"
  | JNum z => pretty z
  | JStr s => s
  | JArr l =>
      (fix join (l : list jsval) : string :=
         let elt x := match x with
                      | JUndefined | JNull => ""
                      | _ => to_string x
                      end in
         match l with
         | [] => ""
         | [x] => elt x
         | x :: r => elt x ++ "," ++ join r
         end) l
  end.

(** [v.toString()]: a method call, so a [TypeError] ([None]) on [null]
    and [undefined]. *)
Definition toString (v : jsval) : option string :=
  match v with
  | JUndefined | JNull => None
  | _ => Some (to_string v)
  end.

(** The key under which [v] indexes an object ([obj[v]]). *)
Definition property_key (v : jsval) : string := to_string v.

(** [v[0]]: [None] is the [TypeError] of indexing [null] or
    [undefined]; a missing element is [undefined]. *)
Definition index0 (v : jsval) : option jsval :=
  match v with
  | JUndefined | JNull => None
  | JArr (x :: _) => Some x
  | JStr (String c _) => Some (JStr (String c EmptyString))
  | _ => Some JUndefined
  end.

(** [typeof v !== "string" || !v]. *)
Definition not_string_or_empty (v : jsval) : bool :=
  match v with
  | JStr EmptyString => true
  | JStr _ => false
  | _ => true
  end.

End Js.

(** ** Descriptors *)

(** An operator descriptor of the operator registry.  The component reads
    [key] and [valueMode]; [valueMode] is ["none"], ["multiple"] or anything
    else ([None] when the property is absent). *)
Record Operator : Type := {
  op_key : string;
  op_valueMode : option string;
  op_attrs : gmap string jsval;
}.

(** A field descriptor: a JavaScript object with a [type], possibly a
    [name], and whatever else the metadata service put in it. *)
Record FieldDef : Type := {
  fd_type : option string;
  fd_name : option jsval;
  fd_attrs : gmap string jsval;
}.

(** What [loadFieldDef] resolves to: a descriptor, [null] or [undefined]. *)
Inductive FieldDefResult : Type :=
| FDObj (fd : FieldDef)
| FDNull
| FDUndefined.

(** [{ type: "integer" }] *)
Definition integer_field : FieldDef :=
  {| fd_type := Some "integer"; fd_name := None; fd_attrs := ∅ |}.

(** [{ ...fieldDef, name: field }]; spreading [null] or [undefined] adds
    nothing. *)
Definition spread_with_name (r : FieldDefResult) (field : jsval) : FieldDef :=
  match r with
  | FDObj fd =>
      {| fd_type := fd_type fd; fd_name := Some field; fd_attrs := fd_attrs fd |}
  | FDNull | FDUndefined =>
      {| fd_type := None; fd_name := Some field; fd_attrs := ∅ |}
  end.

(** The answer of the field service to [loadPath(resModel, path)]. *)
Record ModelInfo : Type := { fieldDefs : gmap string FieldDef }.

Record LoadPathResult : Type := {
  isInvalid : bool;
  names : list string;
  modelsInfo : list ModelInfo;
}.

(** ** The parsed domain *)

(** Modelled from the spec: the parser of [@web/core/domain] is not part of
    the source file.  Section 3 of the specification has the expression as
    an ordered sequence of tokens, connectives and leaf triples; a node
    carries the numeric [type] and the [value] that
    [extractFieldsFromDomain] reads.  The nodes of type 4 (list) and 10
    (tuple) are the sequences of nodes; type 1 is a string. *)
Inductive AST : Type :=
| Atom (type : Z) (value : jsval)
| Seq (tuple : bool) (value : list AST).

Definition ast_type (n : AST) : Z :=
  match n with
  | Atom t _ => t
  | Seq false _ => 4
  | Seq true _ => 10
  end.

(** Modelled from the spec: a [Domain] object, also of [@web/core/domain];
    [ast_value d] is [d.ast.value], the nodes of the list the expression
    is. *)
Record Domain : Type := { ast_value : list AST }.

(** ** The store of node objects *)

(** Node objects are mutated in place and shared between the tree, the
    default leaf and the arguments of the mutation methods, so they live in
    a store.  An object is addressed by its [id], which is unique and never
    reused; [nextId] is the next one to hand out. *)
Record LeafNode : Type := {
  leaf_field : FieldDef;
  leaf_operator : option Operator;   (* [None]: [undefined] *)
  leaf_value : jsval;
}.

Record BranchNode : Type := {
  branch_operator : string;
  branch_children : list N;
}.

Inductive Obj : Type :=
| Leaf (l : LeafNode)
| Branch (b : BranchNode).

Record Store : Type := {
  heap : gmap N Obj;
  nextId : N;
}.

Definition set_obj (n : N) (o : Obj) (st : Store) : Store :=
  {| heap := <[n := o]> (heap st); nextId := nextId st |}.

(** ** The component *)

Record Props : Type := {
  resModel : string;
  value : string;
  defaultLeafValue : list jsval;
}.

(** [this]: the props, the reactive [tree] and [defaultLeaf].  [tree_root]
    is [null] and [defaultLeaf] is [undefined] until a rebuild sets them. *)
Record Component : Type := {
  props : Props;
  store : Store;
  tree_isSupported : bool;
  tree_root : option N;
  defaultLeaf : option N;
}.

Definition with_store (s : Store) (c : Component) : Component :=
  {| props := props c; store := s; tree_isSupported := tree_isSupported c;
     tree_root := tree_root c; defaultLeaf := defaultLeaf c |}.

Definition with_isSupported (b : bool) (c : Component) : Component :=
  {| props := props c; store := store c; tree_isSupported := b;
     tree_root := tree_root c; defaultLeaf := defaultLeaf c |}.

Definition with_root (r : option N) (c : Component) : Component :=
  {| props := props c; store := store c; tree_isSupported := tree_isSupported c;
     tree_root := r; defaultLeaf := defaultLeaf c |}.

Definition with_defaultLeaf (d : option N) (c : Component) : Component :=
  {| props := props c; store := store c; tree_isSupported := tree_isSupported c;
     tree_root := tree_root c; defaultLeaf := d |}.

(** ** Effects *)

(** A method either returns, throws, asks the field service for a path (the
    answer is [None] when the service rejects), or calls [props.update]
    with a text.  An exception carries the state it leaves behind: what was
    written before the throw stays written.  [Settle] is the one place where
    the environment chooses without being asked anything: the order in which
    the answers to calls made together come in, given as a list of
    positions (see [arrange]). *)
Inductive Eff (X R : Type) : Type :=
| Ret (r : R)
| Throw (x : X)
| LoadPath (model path : string) (k : option LoadPathResult -> Eff X R)
| Update (text : string) (k : Eff X R)
| Settle (k : list nat -> Eff X R).

Arguments Ret {X R} r.
Arguments Throw {X R} x.
Arguments LoadPath {X R} model path k.
Arguments Update {X R} text k.
Arguments Settle {X R} k.

Fixpoint bindE {X A B} (m : Eff X A) (f : A -> Eff X B) : Eff X B :=
  match m with
  | Ret a => f a
  | Throw x => Throw x
  | LoadPath r p k => LoadPath r p (fun a => bindE (k a) f)
  | Update t k => Update t (bindE k f)
  | Settle k => Settle (fun order => bindE (k order) f)
  end.

(** [try { m } catch { h }] *)
Fixpoint try_catch {X R} (m : Eff X R) (h : X -> Eff X R) : Eff X R :=
  match m with
  | Ret r => Ret r
  | Throw x => h x
  | LoadPath r p k => LoadPath r p (fun a => try_catch (k a) h)
  | Update t k => Update t (try_catch k h)
  | Settle k => Settle (fun order => try_catch (k order) h)
  end.

(** A method of the component. *)
Definition M (A : Type) : Type := Component -> Eff Component (Component * A).

Definition ret {A} (a : A) : M A := fun c => Ret (c, a).
Definition throw {A} : M A := fun c => Throw c.
Definition bind {A B} (m : M A) (f : A -> M B) : M B :=
  fun c => bindE (m c) (fun ca => f ca.2 ca.1).
Definition get : M Component := fun c => Ret (c, c).
Definition modify (f : Component -> Component) : M unit := fun c => Ret (f c, tt).
Definition try {A} (m : M A) (h : M A) : M A := fun c => try_catch (m c) h.

(** A value that is there, or the exception raised when it is not. *)
Definition or_throw {A} (o : option A) : M A :=
  match o with
  | Some a => ret a
  | None => throw
  end.

Notation "x <- m ;; k" := (bind m (fun x => k))
  (at level 100, m at next level, right associativity).
Notation "m ;;; k" := (bind m (fun _ => k))
  (at level 100, right associativity).

(** What an execution shows to the outside, and how it ends. *)
Inductive event : Type :=
| EvLoadPath (model path : string) (answer : option LoadPathResult)
| EvUpdate (text : string).

Inductive Outcome (X R : Type) : Type :=
| Returned (r : R)
| Thrown (x : X).

Arguments Returned {X R} r.
Arguments Thrown {X R} x.

Inductive Runs {X R} : Eff X R -> list event -> Outcome X R -> Prop :=
| runs_ret r : Runs (Ret r) [] (Returned r)
| runs_throw x : Runs (Throw x) [] (Thrown x)
| runs_load r p k a tr o :
    Runs (k a) tr o -> Runs (LoadPath r p k) (EvLoadPath r p a :: tr) o
| runs_update t k tr o :
    Runs k tr o -> Runs (Update t k) (EvUpdate t :: tr) o
| runs_settle k order tr o :
    Runs (k order) tr o -> Runs (Settle k) tr o.

(** The state an execution leaves. *)
Definition state_of {A} (o : Outcome Component (Component * A)) : Component :=
  match o with
  | Returned r => r.1
  | Thrown c => c
  end.

(** Running against a service given as a function, whose answers come in
    in the order of the calls. *)
Fixpoint run {X R} (service : string -> string -> option LoadPathResult)
    (m : Eff X R) : list event * Outcome X R :=
  match m with
  | Ret r => ([], Returned r)
  | Throw x => ([], Thrown x)
  | LoadPath r p k =>
      let a := service r p in
      let '(tr, o) := run service (k a) in (EvLoadPath r p a :: tr, o)
  | Update t k =>
      let '(tr, o) := run service k in (EvUpdate t :: tr, o)
  | Settle k => run service (k [])
  end.

(** The order the environment chooses, applied to what is pending: each
    item, the last one first, is put at the position its number gives among
    the items after it (at the end when the number is too big).  Every list
    of numbers reorders the items, and every reordering comes from one; the
    empty list keeps the order of the calls. *)
Fixpoint arrange {A} (order : list nat) (pending : list A) : list A :=
  match pending with
  | [] => []
  | x :: rest =>
      let later := arrange (tail order) rest in
      let n := default 0%nat (head order) in
      (take n later ++ x :: drop n later)%list
  end.

(** A computation that leaves the environment no such choice: its trace
    tells which way it went. *)
Inductive Plain {X R} : Eff X R -> Prop :=
| plain_ret r : Plain (Ret r)
| plain_throw x : Plain (Throw x)
| plain_load r p k : (forall a, Plain (k a)) -> Plain (LoadPath r p k)
| plain_update t k : Plain k -> Plain (Update t k).

(** ** What the component imports *)

(** The functions the file imports from the rest of the web client.  Their
    code is not part of this file; the component is verified for whatever
    they compute.  [None] stands for an exception.
    - [getOperatorsInfo], [getDefaultFieldValue]: the field-type registry
      ([domain_selector_fields]);
    - [findOperator]: the operator registry ([domain_selector_operators]);
    - [Domain_new], [Domain_toList]: [new Domain(x)] and [domain.toList()];
    - [TreeBuilder_build]: [treeBuilder.build(domain, fieldDefs)], which
      allocates the nodes of the tree and returns its root;
    - [Node_delete]: [parent.delete(nodeId)];
    - [toDomainString]: [node.toDomain().toString()]. *)
Class Imports : Type := {
  getOperatorsInfo : option string -> list Operator;
  getDefaultFieldValue : FieldDef -> jsval;
  findOperator : string -> option Operator;
  Domain_new : jsval -> option Domain;
  Domain_toList : Domain -> option (list jsval);
  TreeBuilder_build : Domain -> gmap string FieldDefResult -> Store -> Store * option N;
  Node_delete : N -> N -> Store -> option Store;
  toDomainString : Store -> N -> option string;
}.

(** ** Node objects *)

Module Nodes.

(** Modelled from the spec: the node classes of [domain_selector_nodes]
    are not part of the source file.  Section 4.4 of the specification
    gives [add], [insertAfter] and [clone]; section 3 gives the
    attributes of a node and the freshness of its [id]. *)
Definition alloc (o : Obj) (st : Store) : Store * N :=
  ({| heap := <[nextId st := o]> (heap st); nextId := N.succ (nextId st) |},
   nextId st).

(** Modelled from the spec: [new BranchDomainNode(operator, children)], a
    branch with a fresh id (section 3). *)
Definition new_branch (operator : string) (children : list N) (st : Store)
  : Store * N :=
  alloc (Branch {| branch_operator := operator; branch_children := children |}) st.

(** Modelled from the spec: [add(node)] on a Branch appends [node] to
    [children].  Only a branch has the method. *)
Definition add (parent node : N) (st : Store) : option Store :=
  match heap st !! parent with
  | Some (Branch b) =>
      Some (set_obj parent
              (Branch {| branch_operator := branch_operator b;
                         branch_children := (branch_children b ++ [node])%list |}) st)
  | _ => None
  end.

(** Modelled from the spec: the list with [node] right after the first
    [siblingId], or unchanged without one (section 4.4, [insertAfter]). *)
Fixpoint insert_after (siblingId node : N) (l : list N) : list N :=
  match l with
  | [] => []
  | y :: r =>
      if N.eqb y siblingId then y :: node :: r
      else y :: insert_after siblingId node r
  end.

(** Modelled from the spec: [insertAfter(siblingId, node)] on a Branch
    inserts [node] immediately after the child whose id is [siblingId],
    and does nothing if there is no such child. *)
Definition insertAfter (parent siblingId node : N) (st : Store) : option Store :=
  match heap st !! parent with
  | Some (Branch b) =>
      Some (set_obj parent
              (Branch {| branch_operator := branch_operator b;
                         branch_children :=
                           insert_after siblingId node (branch_children b) |}) st)
  | _ => None
  end.

(** Modelled from the spec: [clone()] is a deep copy with freshly
    assigned ids, otherwise identical.  The recursion follows the
    children; [fuel] bounds its depth. *)
Fixpoint clone (fuel : nat) (n : N) (st : Store) : option (Store * N) :=
  match fuel with
  | O => None
  | S fuel' =>
      match heap st !! n with
      | None => None
      | Some (Leaf l) => Some (alloc (Leaf l) st)
      | Some (Branch b) =>
          let clone_all :=
            fix clone_all (cs : list N) (st : Store) : option (Store * list N) :=
              match cs with
              | [] => Some (st, [])
              | c :: cs' =>
                  match clone fuel' c st with
                  | None => None
                  | Some (st1, c') =>
                      match clone_all cs' st1 with
                      | None => None
                      | Some (st2, r) => Some (st2, c' :: r)
                      end
                  end
              end in
          match clone_all (branch_children b) st with
          | None => None
          | Some (st', cs') => Some (new_branch (branch_operator b) cs' st')
          end
      end
  end.

End Nodes.

(** ** The methods of [DomainSelector] *)

Module DomainSelector.
Section Methods.

Context `{Imports}.

(** Reading and writing the objects of the store.  A reference always
    points to an object; a leaf method given anything but a leaf is
    outside the embedding, where it counts as a failure. *)
Definition read (n : N) : M Obj :=
  c <- get ;; or_throw (heap (store c) !! n).

Definition read_leaf (n : N) : M LeafNode :=
  o <- read n ;;
  match o with
  | Leaf l => ret l
  | Branch _ => throw
  end.

Definition write (n : N) (o : Obj) : M unit :=
  modify (fun c => with_store (set_obj n o (store c)) c).

Definition on_store (f : Store -> option Store) : M unit :=
  c <- get ;;
  s <- or_throw (f (store c)) ;;
  modify (with_store s).

(** [await this.fieldService.loadPath(resModel, path)] *)
Definition loadPath (model path : string) : M (option LoadPathResult) :=
  fun c => LoadPath model path (fun a => Ret (c, a)).

(** [this.props.update(text)] *)
Definition update (text : string) : M unit :=
  fun c => Update text (Ret (c, tt)).

(** [extractFieldsFromDomain(domain)]: the first element of every list
    or tuple node, when it is a string (type 1) or the number 0 or 1. *)
Definition is_0_or_1 (v : jsval) : bool :=
  match v with
  | JNum 0 | JNum 1 => true
  | _ => false
  end.

(** What one round of the loop pushes: nothing, or [node.value[0].value];
    [None] when [node.value[0]] is [undefined] and reading its [type]
    raises.  The first element of a sequence is a node; one that is itself
    a sequence has type 4 or 10 and an array as value, so it is skipped. *)
Definition first_field (node : AST) : option (list jsval) :=
  if (ast_type node =? 4)%Z || (ast_type node =? 10)%Z then
    match node with
    | Seq _ [] => None
    | Seq _ (Atom t v :: _) =>
        Some (if (t =? 1)%Z || is_0_or_1 v then [v] else [])
    | Seq _ (Seq _ _ :: _) => Some []
    | Atom _ v =>
        match Js.index0 v with
        | None | Some JUndefined | Some JNull => None
        | Some _ => Some []
        end
    end
  else Some [].

Fixpoint extractFields (nodes : list AST) : option (list jsval) :=
  match nodes with
  | [] => Some []
  | node :: rest =>
      match first_field node, extractFields rest with
      | Some f, Some fs => Some (f ++ fs)%list
      | _, _ => None
      end
  end.

Definition extractFieldsFromDomain (domain : Domain) : M (list jsval) :=
  or_throw (extractFields (ast_value domain)).

(** [notifyChanges()] *)
Definition notifyChanges : M unit :=
  c <- get ;;
  root <- or_throw (tree_root c) ;;
  text <- or_throw (toDomainString (store c) root) ;;
  update text.

(** [loadFieldDef(resModel, field)] *)
Definition loadFieldDef (model : string) (field : jsval) : M FieldDefResult :=
  s <- or_throw (Js.toString field) ;;
  if Js.includes "01" s then ret (FDObj integer_field)
  else if Js.not_string_or_empty field then ret FDNull
  else
    answer <- loadPath model s ;;
    info <- or_throw answer ;;
    if isInvalid info then ret FDNull
    else
      let name := default "undefined" (last (names info)) in
      m <- or_throw (last (modelsInfo info)) ;;
      ret (match fieldDefs m !! name with
           | Some fd => FDObj fd
           | None => FDUndefined
           end).

(** One promise of [loadFieldDefs]: the lookup of one field.  What the
    lookup raises rejects this promise ([None]) and goes no further. *)
Definition promise (model : string) (field : jsval) : M (option FieldDefResult) :=
  try (info <- loadFieldDef model field ;; ret (Some info)) (ret None).

(** The loop of [loadFieldDefs]: one lookup per field, started in the order
    of [fields], whatever becomes of the others.  An event of the trace is a
    call to the service together with the answer this call gets, so the
    events are in the order of the calls, and a call counts even when the
    method has raised before its answer is there. *)
Fixpoint promises (model : string) (fields : list jsval)
  : M (list (jsval * option FieldDefResult)) :=
  match fields with
  | [] => ret []
  | field :: rest =>
      info <- promise model field ;;
      others <- promises model rest ;;
      ret ((field, info) :: others)
  end.

(** [Promise.all]: the results when every promise is fulfilled, and a
    rejection ([None]) when one is rejected. *)
Fixpoint all (results : list (jsval * option FieldDefResult))
  : option (list (jsval * FieldDefResult)) :=
  match results with
  | [] => Some []
  | (field, Some info) :: rest =>
      match all rest with
      | Some entries => Some ((field, info) :: entries)
      | None => None
      end
  | (_, None) :: _ => None
  end.

(** The lookups that wait for the service: those of the strings that do not
    occur in ["01"].  The others are settled when the loop ends. *)
Definition awaits_service (field : jsval) : bool :=
  match field with
  | JStr path => negb (Js.includes "01" path)
  | _ => false
  end.

(** [fieldDefs[field] = info] on the plain object [fieldDefs].  The mapping
    holds the properties of the object itself; an assignment to the key
    [__proto__] sets the prototype of the object and adds no property, and
    what the object inherits is not part of the mapping. *)
Definition assign (defs : gmap string FieldDefResult)
    (entry : jsval * FieldDefResult) : gmap string FieldDefResult :=
  if String.eqb (Js.property_key entry.1) "__proto__" then defs
  else <[Js.property_key entry.1 := entry.2]> defs.

(** The order in which the answers to the calls of one loop come in. *)
Definition settle : M (list nat) := fun c => Settle (fun order => Ret (c, order)).

(** [loadFieldDefs(resModel, fields)].  The loop starts every lookup and
    [Promise.all] awaits them together: the method raises when one of them
    is rejected, the calls for the other fields having been made all the
    same.  Otherwise every [then] callback has written its entry, in the
    order in which the promises were settled, a later entry replacing an
    earlier one under the same key: first the lookups that did not wait
    for the service, in the order of the loop, then the others in the
    order their answers came in. *)
Definition loadFieldDefs (model : string) (fields : list jsval)
  : M (gmap string FieldDefResult) :=
  results <- promises model fields ;;
  entries <- or_throw (all results) ;;
  order <- settle ;;
  let at_once := List.filter (fun e => negb (awaits_service e.1)) entries in
  let awaited := List.filter (fun e => awaits_service e.1) entries in
  ret (foldl assign ∅ (at_once ++ arrange order awaited)).

(** [this.treeBuilder.build(domain, fieldDefs)] *)
Definition build (domain : Domain) (defs : gmap string FieldDefResult) : M N :=
  c <- get ;;
  let r := TreeBuilder_build domain defs (store c) in
  modify (with_store r.1) ;;;
  or_throw r.2.

(** [node.children[0]] *)
Definition first_child (n : N) : M (option N) :=
  o <- read n ;;
  match o with
  | Branch b => ret (head (branch_children b))
  | Leaf _ => throw
  end.

(** The body of the [try] block of [onPropsUpdated]. *)
Definition rebuild (p : Props) : M unit :=
  domain <- or_throw (Domain_new (JStr (value p))) ;;
  or_throw (Domain_toList domain) ;;;
  fields <- extractFieldsFromDomain domain ;;
  defs <- loadFieldDefs (resModel p) fields ;;
  root <- build domain defs ;;
  modify (with_root (Some root)) ;;;
  leafDomain <- or_throw (Domain_new (JArr [JArr (defaultLeafValue p)])) ;;
  leafDefs <- loadFieldDefs (resModel p)
                [default JUndefined (head (defaultLeafValue p))] ;;
  leafRoot <- build leafDomain leafDefs ;;
  leaf <- first_child leafRoot ;;
  modify (with_defaultLeaf leaf) ;;;
  modify (with_isSupported true).

(** The [catch] block. *)
Definition fallback : M unit :=
  modify (with_isSupported false) ;;;
  emptyDomain <- or_throw (Domain_new (JArr [])) ;;
  root <- build emptyDomain ∅ ;;
  modify (with_root (Some root)).

(** [onPropsUpdated(p)] *)
Definition onPropsUpdated (p : Props) : M unit :=
  try (rebuild p) fallback.

(** [createNewLeaf()]: [this.defaultLeaf.clone()] *)
Definition createNewLeaf : M N :=
  c <- get ;;
  leaf <- or_throw (defaultLeaf c) ;;
  r <- or_throw (Nodes.clone (S (size (heap (store c)))) leaf (store c)) ;;
  modify (with_store r.1) ;;;
  ret r.2.

(** [createNewBranch(operator)] *)
Definition createNewBranch (operator : string) : M N :=
  first <- createNewLeaf ;;
  second <- createNewLeaf ;;
  c <- get ;;
  let r := Nodes.new_branch operator [first; second] (store c) in
  modify (with_store r.1) ;;;
  ret r.2.

(** [insertRootLeaf(parent)] *)
Definition insertRootLeaf (parent : N) : M unit :=
  leaf <- createNewLeaf ;;
  on_store (Nodes.add parent leaf) ;;;
  notifyChanges.

(** [insertLeaf(parent, node)] *)
Definition insertLeaf (parent node : N) : M unit :=
  leaf <- createNewLeaf ;;
  on_store (Nodes.insertAfter parent node leaf) ;;;
  notifyChanges.

(** [insertBranch(parent, node)] *)
Definition insertBranch (parent node : N) : M unit :=
  p <- read parent ;;
  let nextOperator :=
    match p with
    | Branch b => if String.eqb (branch_operator b) "AND" then "OR" else "AND"
    | Leaf _ => "AND"
    end in
  branch <- createNewBranch nextOperator ;;
  on_store (Nodes.insertAfter parent node branch) ;;;
  notifyChanges.

(** [delete(parent, node)] *)
Definition delete (parent node : N) : M unit :=
  on_store (Node_delete parent node) ;;;
  notifyChanges.

(** [updateBranchOperator(node, operator)].  The template calls it on
    branches; a leaf has no place for a connective in the store. *)
Definition updateBranchOperator (node : N) (operator : string) : M unit :=
  o <- read node ;;
  match o with
  | Branch b =>
      write node (Branch {| branch_operator := operator;
                            branch_children := branch_children b |}) ;;;
      notifyChanges
  | Leaf _ => throw
  end.

(** [updateField(node, field)] *)
Definition updateField (node : N) (field : jsval) : M unit :=
  c <- get ;;
  fieldDef <- loadFieldDef (resModel (props c)) field ;;
  l <- read_leaf node ;;
  let l1 := {| leaf_field := spread_with_name fieldDef field;
               leaf_operator := leaf_operator l;
               leaf_value := leaf_value l |} in
  write node (Leaf l1) ;;;
  match fieldDef with
  | FDObj fd =>
      write node (Leaf {| leaf_field := leaf_field l1;
                          leaf_operator := head (getOperatorsInfo (fd_type fd));
                          leaf_value := getDefaultFieldValue fd |}) ;;;
      notifyChanges
  | FDNull | FDUndefined => throw                (* [fieldDef.type] *)
  end.

(** The [switch] of [updateLeafOperator]: the value after a change from
    an operator of mode [previous] to one of mode [next], [None] when
    [node.value[0]] raises. *)
Definition migrate (previous next : option string) (field : FieldDef)
    (v : jsval) : option jsval :=
  if decide (next = Some "none") then Some (JBool false)
  else if decide (next = Some "multiple") then
    Some (if decide (previous = Some "none") then JArr [] else JArr [v])
  else if decide (previous = Some "none") then Some (getDefaultFieldValue field)
  else Js.index0 v.

(** [updateLeafOperator(node, operator)] *)
Definition updateLeafOperator (node : N) (operator : string) : M unit :=
  l <- read_leaf node ;;
  let previousOperator := leaf_operator l in
  newOperator <- or_throw (findOperator operator) ;;
  write node (Leaf {| leaf_field := leaf_field l;
                      leaf_operator := Some newOperator;
                      leaf_value := leaf_value l |}) ;;;
  previous <- or_throw previousOperator ;;
  (if decide (op_valueMode previous ≠ op_valueMode newOperator) then
     v <- or_throw (migrate (op_valueMode previous) (op_valueMode newOperator)
                      (leaf_field l) (leaf_value l)) ;;
     write node (Leaf {| leaf_field := leaf_field l;
                         leaf_operator := Some newOperator;
                         leaf_value := v |})
   else ret tt) ;;;
  notifyChanges.

(** [updateLeafValue(node, value)] *)
Definition updateLeafValue (node : N) (v : jsval) : M unit :=
  l <- read_leaf node ;;
  write node (Leaf {| leaf_field := leaf_field l;
                      leaf_operator := leaf_operator l;
                      leaf_value := v |}) ;;;
  notifyChanges.

(** [getOperatorsInfo(node)]: the operators offered for the leaf.  An
    element [None] is [undefined]; the result [None] is the [TypeError]
    of reading [node.operator.key] when there is no operator. *)
Definition same_key (node : LeafNode) (op : Operator) : option bool :=
  match leaf_operator node with
  | Some current => Some (String.eqb (op_key op) (op_key current))
  | None => None
  end.

Fixpoint some_same_key (node : LeafNode) (ops : list Operator) : option bool :=
  match ops with
  | [] => Some false
  | op :: rest =>
      match same_key node op with
      | None => None
      | Some true => Some true
      | Some false => some_same_key node rest
      end
  end.

Definition getOperatorsInfo (node : LeafNode) : option (list (option Operator)) :=
  let operators := getOperatorsInfo (fd_type (leaf_field node)) in
  match some_same_key node operators with
  | None => None
  | Some true => Some (Some <$> operators)
  | Some false => Some ((Some <$> operators) ++ [leaf_operator node])%list
  end.

(** The mutation operations the template can trigger. *)
Inductive Mutation : Type :=
| InsertRootLeaf (parent : N)
| InsertLeaf (parent node : N)
| InsertBranch (parent node : N)
| Delete (parent node : N)
| UpdateBranchOperator (node : N) (operator : string)
| UpdateField (node : N) (field : jsval)
| UpdateLeafOperator (node : N) (operator : string)
| UpdateLeafValue (node : N) (v : jsval).

Definition perform (mu : Mutation) : M unit :=
  match mu with
  | InsertRootLeaf parent => insertRootLeaf parent
  | InsertLeaf parent node => insertLeaf parent node
  | InsertBranch parent node => insertBranch parent node
  | Delete parent node => delete parent node
  | UpdateBranchOperator node operator => updateBranchOperator node operator
  | UpdateField node field => updateField node field
  | UpdateLeafOperator node operator => updateLeafOperator node operator
  | UpdateLeafValue node v => updateLeafValue node v
  end.

End Methods.
End DomainSelector.

(** ** Vocabulary of the properties *)

(** No call to [props.update] in a trace. *)
Definition is_update (e : event) : bool :=
  match e with
  | EvUpdate _ => true
  | EvLoadPath _ _ _ => false
  end.

Definition quiet (tr : list event) : Prop := Forall (fun e => is_update e = false) tr.

(** Every execution of [m] is without notification. *)
Definition Silent {A} (m : M A) : Prop :=
  forall c tr o, Runs (m c) tr o -> quiet tr.

(** Every execution of [m] that returns has notified the owner exactly
    once, as its last action, with the serialization of the root of the
    state it returns; an execution that throws has not notified. *)
Definition notified `{Imports} (tr : list event) (o : Outcome Component (Component * unit))
  : Prop :=
  match o with
  | Returned (c', _) =>
      exists tr0 root text,
        tr = (tr0 ++ [EvUpdate text])%list /\ quiet tr0 /\
        tree_root c' = Some root /\ toDomainString (store c') root = Some text
  | Thrown _ => quiet tr
  end.

Definition EndsNotifying `{Imports} (m : M unit) : Prop :=
  forall c tr o, Runs (m c) tr o -> notified tr o.

(** What a lookup makes of the answer of the service ([None]: it raises):
    [null] for an invalid path, and else what the last model has under the
    last name. *)
Definition resolved (answer : option LoadPathResult) : option FieldDefResult :=
  match answer with
  | None => None
  | Some info =>
      if isInvalid info then Some FDNull
      else
        match last (modelsInfo info) with
        | None => None
        | Some m =>
            Some (match fieldDefs m !! default "undefined" (last (names info)) with
                  | Some fd => FDObj fd
                  | None => FDUndefined
                  end)
        end
  end.




(** Whatever [m] returns satisfies [Q]. *)
Definition Post {A} (m : M A) (Q : Component -> A -> Prop) : Prop :=
  forall c tr c' a, Runs (m c) tr (Returned (c', a)) -> Q c' a.

(** The three classes of [valueMode]: ["none"], ["multiple"], and the rest,
    which takes a single value. *)
Definition mode_none (m : option string) : Prop := m = Some "none".
Definition mode_multiple (m : option string) : Prop := m = Some "multiple".
Definition mode_single (m : option string) : Prop :=
  m <> Some "none" /\ m <> Some "multiple".

(** The migration table of the specification, row by row: the value a leaf
    of field [field] and value [old] gets when its operator changes from
    the mode [previous] to the mode [next]. *)
Inductive migration `{Imports} (field : FieldDef) (old : jsval)
  : option string -> option string -> jsval -> Prop :=
| to_none previous next :
    mode_none next -> migration field old previous next (JBool false)
| none_to_multiple previous next :
    mode_none previous -> mode_multiple next ->
    migration field old previous next (JArr [])
| single_to_multiple previous next :
    mode_single previous -> mode_multiple next ->
    migration field old previous next (JArr [old])
| none_to_single previous next :
    mode_none previous -> mode_single next ->
    migration field old previous next (getDefaultFieldValue field)
| multiple_to_single previous next first others :
    mode_multiple previous -> mode_single next ->
    old = JArr (first :: others) ->
    migration field old previous next first.

(** Ids are handed out in increasing order: no object of the store has an
    id that is still to come. *)
Definition Store_wf (st : Store) : Prop :=
  map_Forall (fun n _ => (n < nextId st)%N) (heap st).

(** The leaf [l] with another operator or value. *)
Definition leaf_with (l : LeafNode) (operator : option Operator) (v : jsval)
  : LeafNode :=
  {| leaf_field := leaf_field l; leaf_operator := operator; leaf_value := v |}.

(** The state [c] with the object [o] written at [n]. *)
Definition with_obj (n : N) (o : Obj) (c : Component) : Component :=
  with_store {| heap := <[n := o]> (heap (store c)); nextId := nextId (store c) |} c.






(** ** Vocabulary of the further properties *)

(** From a state that satisfies [P], an execution of [m] that returns the
    value [a] in the state [c'] satisfies [Q c' a], and one that throws
    leaves a state that satisfies [E]. *)
Definition Hoare {A} (P : Component -> Prop) (m : M A)
    (Q : Component -> A -> Prop) (E : Component -> Prop) : Prop :=
  forall c tr o,
    P c -> Runs (m c) tr o ->
    match o with
    | Returned r => Q r.1 r.2
    | Thrown x => E x
    end.

(** [m] keeps [I], however it ends. *)
Definition Keeps {A} (I : Component -> Prop) (m : M A) : Prop :=
  Hoare I m (fun c _ => I c) I.

(** The questions put to the field service in a trace, in order. *)
Definition asked (tr : list event) : list (string * string) :=
  omap (fun e => match e with
                 | EvLoadPath model path _ => Some (model, path)
                 | EvUpdate _ => None
                 end) tr.

(** [setup()]: the component as it is created, over the node objects that
    exist so far: the tree is not supported and has no root, and there is
    no default leaf. *)
Definition setup (p : Props) (st : Store) : Component :=
  {| props := p; store := st; tree_isSupported := false; tree_root := None;
     defaultLeaf := None |}.

(** [String.prototype.trim], on strings whose characters are code units
    below 256: the white space and line terminators there are the
    characters 9 to 13, the space and the no-break space (160). *)
Definition is_space (a : Ascii.ascii) : bool :=
  let n := Ascii.N_of_ascii a in
  ((9 <=? n) && (n <=? 13) || (n =? 32) || (n =? 160))%N.

Fixpoint trimStart (s : string) : string :=
  match s with
  | EmptyString => EmptyString
  | String a s' => if is_space a then trimStart s' else s
  end.

Fixpoint trimEnd (s : string) : string :=
  match s with
  | EmptyString => EmptyString
  | String a s' =>
      match trimEnd s' with
      | EmptyString => if is_space a then EmptyString else String a EmptyString
      | t => String a t
      end
  end.

Definition trim (s : string) : string := trimEnd (trimStart s).

(** The characters of [s] are all white space. *)
Fixpoint blank (s : string) : bool :=
  match s with
  | EmptyString => true
  | String a s' => is_space a && blank s'
  end.

(** The getter [className], of [this.props.readonly] and
    [this.props.className]; an absent [className] is [undefined], which a
    template literal prints as such. *)
Definition mode_class (readonly : bool) : string :=
  if readonly then "o_read_mode" else "o_edit_mode".

Definition className (readonly : bool) (name : option string) : string :=
  trim (mode_class readonly +:+ " " +:+ default "undefined" name).

(** Every event of every execution of [m] satisfies [phi]. *)
Definition TraceAll {A} (phi : event -> Prop) (m : M A) : Prop :=
  forall c tr o, Runs (m c) tr o -> Forall phi tr.

(** The event is a question to the field service about [model]. *)
Definition asks_about (model : string) (e : event) : Prop :=
  match e with
  | EvLoadPath m _ _ => m = model
  | EvUpdate _ => False
  end.

(** Every execution of [m] is without events. *)
Definition Eventless {A} (m : M A) : Prop :=
  forall c tr o, Runs (m c) tr o -> tr = [].

(** The field inputs that [loadFieldDef] takes for a shorthand: those whose
    string form occurs in ["01"]. *)
Definition shorthands : list string := [""; "0"; "1"; "01"].

(** The questions [loadFieldDefs] has for the field service: one for every
    field that is a string not occurring in ["01"], in the order of the
    fields. *)
Definition questions (model : string) (fields : list jsval) : list (string * string) :=
  omap (fun f => match f with
                 | JStr path => if Js.includes "01" path then None else Some (model, path)
                 | _ => None
                 end) fields.

(** The node [node] of a domain names the field [f]: it is a list or a
    tuple whose first element is a string, or the number 0 or 1, of value
    [f]. *)
Definition names_field (node : AST) (f : jsval) : Prop :=
  exists tuple t rest,
    node = Seq tuple (Atom t f :: rest) /\ (t = 1%Z \/ f = JNum 0 \/ f = JNum 1).

(** What a node has for the list of fields: the field it names, or
    nothing when it names none. *)
Definition gives (node : AST) (pick : option jsval) : Prop :=
  match pick with
  | Some f => names_field node f
  | None => forall f, ~ names_field node f
  end.


(** What a lookup that does not ask the service settles to. *)
Definition at_once (field : jsval) : option FieldDefResult :=
  match Js.toString field with
  | None => None
  | Some s => Some (if Js.includes "01" s then FDObj integer_field else FDNull)
  end.

(** The promise for the field [e.1] is settled with [e.2], by an answer of
    the trace when the lookup waits for one. *)
Definition settled_by `{Imports} (model : string) (tr : list event)
    (e : jsval * option FieldDefResult) : Prop :=
  if DomainSelector.awaits_service e.1
  then exists path a,
         e.1 = JStr path /\ EvLoadPath model path a ∈ tr /\ e.2 = resolved a
  else e.2 = at_once e.1.

(** [I] does not look at the store. *)
Definition store_blind (I : Component -> Prop) : Prop :=
  forall s c, I c -> I (with_store s c).

(** The mutations that insert a clone of the default leaf. *)
Definition inserts (mu : DomainSelector.Mutation) : bool :=
  match mu with
  | DomainSelector.InsertRootLeaf _ | DomainSelector.InsertLeaf _ _
  | DomainSelector.InsertBranch _ _ => true
  | _ => false
  end.

(** The branch an inserting mutation inserts into. *)
Definition inserts_into (mu : DomainSelector.Mutation) : option N :=
  match mu with
  | DomainSelector.InsertRootLeaf parent | DomainSelector.InsertLeaf parent _
  | DomainSelector.InsertBranch parent _ => Some parent
  | _ => None
  end.

(** The node whose attributes a mutation rewrites, for the mutations that
    do so. *)
Definition rewrites (mu : DomainSelector.Mutation) : option N :=
  match mu with
  | DomainSelector.UpdateBranchOperator node _
  | DomainSelector.UpdateField node _
  | DomainSelector.UpdateLeafOperator node _
  | DomainSelector.UpdateLeafValue node _ => Some node
  | _ => None
  end.

(** What a mutation does not touch: the props, the root, the flag and the
    default leaf of [c0]. *)
Definition same_frame (c0 c : Component) : Prop :=
  props c = props c0 /\ tree_root c = tree_root c0 /\
  tree_isSupported c = tree_isSupported c0 /\ defaultLeaf c = defaultLeaf c0.

(** The store of [c] is the one of [c0] but for the object [node]. *)
Definition same_but (node : N) (c0 c : Component) : Prop :=
  nextId (store c) = nextId (store c0) /\
  forall k, k <> node -> heap (store c) !! k = heap (store c0) !! k.

(** The store of [c] extends the one of [c0]: the objects of [c0] are
    there unchanged but for [parent], and the ids go on. *)
Definition extends_but (parent : N) (c0 c : Component) : Prop :=
  (nextId (store c0) <= nextId (store c))%N /\
  forall k o, k <> parent -> heap (store c0) !! k = Some o ->
              heap (store c) !! k = Some o.

(** ** A small instance, to run the methods on concrete inputs *)

Module Sample.

Definition op (key : string) (mode : option string) : Operator :=
  {| op_key := key; op_valueMode := mode; op_attrs := ∅ |}.

Definition eq_op : Operator := op "=" None.
Definition ne_op : Operator := op "!=" None.
Definition in_op : Operator := op "in" (Some "multiple").
Definition set_op : Operator := op "set" (Some "none").
Definition ilike_op : Operator := op "ilike" None.

Definition operators : list Operator := [eq_op; ne_op; in_op; set_op; ilike_op].

Definition find (key : string) : option Operator :=
  List.find (fun o => String.eqb (op_key o) key) operators.

Definition operators_of (type : option string) : list Operator :=
  match type with
  | Some "boolean" => [eq_op; ne_op]
  | Some "integer" => [eq_op; ne_op; in_op; set_op]
  | _ => [eq_op; ne_op; ilike_op; in_op; set_op]
  end.

Definition default_value (fd : FieldDef) : jsval :=
  match fd_type fd with
  | Some "boolean" => JBool true
  | Some "integer" => JNum 1
  | _ => JStr ""
  end.

Fixpoint to_ast (v : jsval) : AST :=
  match v with
  | JNum _ => Atom 0 v
  | JStr _ => Atom 1 v
  | JBool _ => Atom 2 v
  | JNull | JUndefined => Atom 3 v
  | JArr l => Seq false (List.map to_ast l)
  end.

(** The texts this instance parses: the empty list and one leaf. *)
Definition parse (v : jsval) : option Domain :=
  match v with
  | JStr "[]" => Some {| ast_value := [] |}
  | JStr "[('age', '=', 10)]" =>
      Some {| ast_value := [Seq true [Atom 1 (JStr "age"); Atom 1 (JStr "=");
                                      Atom 0 (JNum 10)]] |}
  | JStr "[('nope', '=', 10)]" =>
      Some {| ast_value := [Seq true [Atom 1 (JStr "nope"); Atom 1 (JStr "=");
                                      Atom 0 (JNum 10)]] |}
  | JArr l => Some {| ast_value := List.map to_ast l |}
  | _ => None
  end.

(** A builder for flat domains: one leaf per triple, under an AND root;
    it gives up on anything else and on an unresolved field. *)
Definition build_leaf (defs : gmap string FieldDefResult) (n : AST)
  : option LeafNode :=
  match n with
  | Seq _ [Atom _ f; Atom _ (JStr o); Atom _ v] =>
      match defs !! Js.property_key f, find o with
      | Some (FDObj fd), Some operator =>
          Some {| leaf_field := spread_with_name (FDObj fd) f;
                  leaf_operator := Some operator; leaf_value := v |}
      | _, _ => None
      end
  | _ => None
  end.

Fixpoint build_leaves (defs : gmap string FieldDefResult) (ns : list AST)
    (st : Store) : Store * option (list N) :=
  match ns with
  | [] => (st, Some [])
  | n :: rest =>
      match build_leaf defs n with
      | None => (st, None)
      | Some l =>
          let '(st1, id) := Nodes.alloc (Leaf l) st in
          let '(st2, r) := build_leaves defs rest st1 in
          (st2, cons id <$> r)
      end
  end.

Definition build (d : Domain) (defs : gmap string FieldDefResult) (st : Store)
  : Store * option N :=
  let '(st1, r) := build_leaves defs (ast_value d) st in
  match r with
  | None => (st1, None)
  | Some ids => let '(st2, root) := Nodes.new_branch "AND" ids st1 in
                (st2, Some root)
  end.

Definition delete (parent nodeId : N) (st : Store) : option Store :=
  match heap st !! parent with
  | Some (Branch b) =>
      Some (set_obj parent
              (Branch {| branch_operator := branch_operator b;
                         branch_children :=
                           List.filter (fun c => negb (N.eqb c nodeId))
                                       (branch_children b) |}) st)
  | _ => None
  end.

(** A serialization of nodes down to the given depth. *)
Fixpoint show (fuel : nat) (st : Store) (n : N) : option string :=
  match fuel with
  | O => None
  | S fuel' =>
      match heap st !! n with
      | None => None
      | Some (Leaf l) =>
          match leaf_operator l, leaf_value l with
          | None, _ | _, JUndefined => None
          | Some o, v =>
              Some ("(" +:+ Js.to_string (default JUndefined (fd_name (leaf_field l)))
                        +:+ " " +:+ op_key o +:+ " " +:+ Js.to_string v +:+ ")")
          end
      | Some (Branch b) =>
          (fix all (cs : list N) : option string :=
             match cs with
             | [] => Some ""
             | c :: r =>
                 match show fuel' st c, all r with
                 | Some s, Some t => Some (s +:+ t)
                 | _, _ => None
                 end
             end) (branch_children b)
            ≫= fun s => Some (branch_operator b +:+ "[" +:+ s +:+ "]")
      end
  end.

Definition imports : Imports :=
  {| getOperatorsInfo := operators_of;
     getDefaultFieldValue := default_value;
     findOperator := find;
     Domain_new := parse;
     Domain_toList := fun _ => Some [];
     TreeBuilder_build := build;
     Node_delete := delete;
     toDomainString := show 8 |}.

(** A field service that knows the model ["res.partner"]. *)
Definition partner_fields : gmap string FieldDef :=
  {[ "age" := {| fd_type := Some "integer"; fd_name := None; fd_attrs := ∅ |};
     "active" := {| fd_type := Some "boolean"; fd_name := None; fd_attrs := ∅ |};
     "name" := {| fd_type := Some "char"; fd_name := None; fd_attrs := ∅ |} ]}.

Definition service (model path : string) : option LoadPathResult :=
  if String.eqb model "res.partner" then
    Some (match partner_fields !! path with
          | Some _ => {| isInvalid := false; names := [path];
                         modelsInfo := [{| fieldDefs := partner_fields |}] |}
          | None => {| isInvalid := true; names := []; modelsInfo := [] |}
          end)
  else None.

Definition the_props (text : string) : Props :=
  {| resModel := "res.partner"; value := text;
     defaultLeafValue := [JStr "age"; JStr "="; JNum 1] |}.

(** The component before its first rebuild. *)
Definition fresh (text : string) : Component :=
  {| props := the_props text;
     store := {| heap := ∅; nextId := 1 |};
     tree_isSupported := false; tree_root := None; defaultLeaf := None |}.

(** The component after [onPropsUpdated], against [service]. *)
Definition started (text : string) : Component :=
  state_of (run service (@DomainSelector.onPropsUpdated imports (the_props text)
                           (fresh text))).2.

(** The state a mutation leaves. *)
Definition after (mu : DomainSelector.Mutation) (c : Component) : Component :=
  state_of (run service (@DomainSelector.perform imports mu c)).2.

Definition age : FieldDef :=
  {| fd_type := Some "integer"; fd_name := Some (JStr "age"); fd_attrs := ∅ |}.

Definition active : FieldDef :=
  {| fd_type := Some "boolean"; fd_name := Some (JStr "active"); fd_attrs := ∅ |}.

Definition leaf (field : FieldDef) (operator : Operator) (v : jsval) : LeafNode :=
  {| leaf_field := field; leaf_operator := Some operator; leaf_value := v |}.

(** The component after a rebuild from [age = 10]: the leaf 1 under the
    root 2; the default leaf is 3, under the root 4 of its own tree. *)
Definition c0 : Component :=
  {| props := the_props "[('age', '=', 10)]";
     store :=
       {| heap :=
            {[ 1%N := Leaf (leaf age eq_op (JNum 10));
               2%N := Branch {| branch_operator := "AND"; branch_children := [1%N] |};
               3%N := Leaf (leaf age eq_op (JNum 1));
               4%N := Branch {| branch_operator := "AND"; branch_children := [3%N] |} ]};
          nextId := 5 |};
     tree_isSupported := true; tree_root := Some 2%N; defaultLeaf := Some 3%N |}.

(** A component whose store is the single leaf [l], under the root 2. *)
Definition one_leaf (l : LeafNode) : Component :=
  {| props := the_props "";
     store := {| heap := {[ 1%N := Leaf l;
                            2%N := Branch {| branch_operator := "AND";
                                             branch_children := [1%N] |} ]};
                 nextId := 3 |};
     tree_isSupported := true; tree_root := Some 2%N; defaultLeaf := None |}.

(** The value of the leaf 1. *)
Definition value_at_1 (c : Component) : option jsval :=
  match heap (store c) !! 1%N with
  | Some (Leaf l) => Some (leaf_value l)
  | _ => None
  end.

End Sample.

(** More of the same, for the further properties. *)
Module SampleMore.

(** An operator that declares its mode as ["single"], where the others
    leave it out. *)
Definition like_op : Operator := Sample.op "like" (Some "single").

(** The sample instance with that operator in its registry. *)
Definition imports : Imports :=
  {| getOperatorsInfo := Sample.operators_of;
     getDefaultFieldValue := Sample.default_value;
     findOperator :=
       fun key => if String.eqb key "like" then Some like_op else Sample.find key;
     Domain_new := Sample.parse;
     Domain_toList := fun _ => Some [];
     TreeBuilder_build := Sample.build;
     Node_delete := Sample.delete;
     toDomainString := Sample.show 8 |}.

Definition name : FieldDef :=
  {| fd_type := Some "char"; fd_name := Some (JStr "name"); fd_attrs := ∅ |}.

(** What the sample service answers for a field it knows and for one it
    does not. *)
Definition known (path : string) : option LoadPathResult :=
  Some {| isInvalid := false; names := [path];
          modelsInfo := [{| fieldDefs := Sample.partner_fields |}] |}.

Definition unknown : option LoadPathResult :=
  Some {| isInvalid := true; names := []; modelsInfo := [] |}.

(** The nodes of a domain with a connective, two leaves (one of them the
    shorthand for "always true") and a stray number. *)
Definition nodes : list AST :=
  [ Atom 1 (JStr "&");
    Seq true [Atom 1 (JStr "age"); Atom 1 (JStr "="); Atom 0 (JNum 10)];
    Seq true [Atom 0 (JNum 1); Atom 1 (JStr "="); Atom 0 (JNum 1)];
    Seq false [Atom 0 (JNum 7)] ].

(** The sample component after a rebuild that fell back. *)
Definition fallen (text : string) : Component :=
  {| props := Sample.the_props text;
     store := {| heap := {[ 1%N := Branch {| branch_operator := "AND";
                                             branch_children := [] |} ]};
                 nextId := 2 |};
     tree_isSupported := false; tree_root := Some 1%N; defaultLeaf := None |}.

(** The sample component with another value, or another object, for its
    leaf 1. *)
Definition c0_with (o : Obj) : Component := with_obj 1 o Sample.c0.

(** The sample component after [insertLeaf(2, 1)]. *)
Definition c0_inserted : Component :=
  with_store
    {| heap :=
         <[2%N := Branch {| branch_operator := "AND"; branch_children := [1; 5]%N |}]>
           (<[5%N := Leaf (Sample.leaf Sample.age Sample.eq_op (JNum 1))]>
              (heap (store Sample.c0)));
       nextId := 6 |} Sample.c0.

End SampleMore.

(** * Properties *)

(** ** Executions *)

Lemma run_Runs {X R} service (m : Eff X R) :
  Runs m (run service m).1 (run service m).2.
Proof.
  induction m as [r|x|model path k IH|text k IH|k IH]; simpl.
  - constructor.
  - constructor.
  - specialize (IH (service model path)).
    destruct (run service (k (service model path))) as [tr o]. simpl in *.
    by constructor.
  - destruct (run service k) as [tr o]. simpl in *. by constructor.
  - econstructor. apply IH.
Qed.

Lemma Runs_bindE {X A B} (m : Eff X A) (f : A -> Eff X B) tr o :
  Runs (bindE m f) tr o ->
  (exists tr1 tr2 a, Runs m tr1 (Returned a) /\ Runs (f a) tr2 o /\
                     tr = (tr1 ++ tr2)%list) \/
  (exists x, Runs m tr (Thrown x) /\ o = Thrown x).
Proof.
  revert tr.
  induction m as [r|x|model path k IH|text k IH|k IH]; simpl; intros tr Hr.
  - left. exists [], tr, r. repeat split; [constructor | done].
  - inversion Hr; subst. right. exists x. split; [constructor | done].
  - inversion Hr; subst.
    match goal with Hk : Runs (bindE (k ?a) f) ?t o |- _ =>
      destruct (IH a t Hk) as [(tr1 & tr2 & b & H1 & H2 & ->)|(x & H1 & ->)] end.
    + left. exists (EvLoadPath model path a :: tr1), tr2, b.
      repeat split; [by constructor | done].
    + right. exists x. split; [by constructor | done].
  - inversion Hr; subst.
    match goal with Hk : Runs (bindE k f) ?t o |- _ =>
      destruct (IH t Hk) as [(tr1 & tr2 & b & H1 & H2 & ->)|(x & H1 & ->)] end.
    + left. exists (EvUpdate text :: tr1), tr2, b.
      repeat split; [by constructor | done].
    + right. exists x. split; [by constructor | done].
  - inversion Hr; subst.
    match goal with Hk : Runs (bindE (k ?a) f) tr o |- _ =>
      destruct (IH a tr Hk) as [(tr1 & tr2 & b & H1 & H2 & ->)|(x & H1 & ->)] end.
    + left. exists tr1, tr2, b. repeat split; [by econstructor | done].
    + right. exists x. split; [by econstructor | done].
Qed.

Lemma Runs_bindE_intro {X A B} (m : Eff X A) (f : A -> Eff X B) tr1 tr2 a o :
  Runs m tr1 (Returned a) -> Runs (f a) tr2 o ->
  Runs (bindE m f) (tr1 ++ tr2) o.
Proof.
  intros H1. remember (Returned a) as oa eqn:Ho.
  induction H1; intros H2; simpl; try discriminate.
  - by injection Ho as ->.
  - constructor. by apply IHRuns.
  - constructor. by apply IHRuns.
  - econstructor. by apply IHRuns.
Qed.

Lemma Runs_bindE_prefix {X A B} (m : Eff X A) (f : A -> Eff X B) tr1 tr2 a o :
  Plain m ->
  Runs m tr1 (Returned a) -> Runs (bindE m f) (tr1 ++ tr2) o ->
  Runs (f a) tr2 o.
Proof.
  intros Hp. revert tr1.
  induction Hp as [r|x|r p k _ IH|t k _ IH]; intros tr1 H1 H2;
    inversion H1; subst; simpl in H2.
  - done.
  - inversion H2; subst. by eapply IH.
  - inversion H2; subst. by eapply IH.
Qed.

Lemma plain_bindE {X A B} (m : Eff X A) (f : A -> Eff X B) :
  Plain m -> (forall a, Plain (f a)) -> Plain (bindE m f).
Proof.
  intros Hp Hf. induction Hp; simpl; [done | | |]; by constructor.
Qed.

Lemma Runs_try_catch {X R} (m : Eff X R) (h : X -> Eff X R) tr o :
  Runs (try_catch m h) tr o ->
  (exists r, Runs m tr (Returned r) /\ o = Returned r) \/
  (exists tr1 tr2 x, Runs m tr1 (Thrown x) /\ Runs (h x) tr2 o /\
                     tr = (tr1 ++ tr2)%list).
Proof.
  revert tr.
  induction m as [r|x|model path k IH|text k IH|k IH]; simpl; intros tr Hr.
  - inversion Hr; subst. left. exists r. split; [constructor | done].
  - right. exists [], tr, x. repeat split; [constructor | done].
  - inversion Hr; subst.
    match goal with Hk : Runs (try_catch (k ?a) h) ?t o |- _ =>
      destruct (IH a t Hk) as [(r & H1 & ->)|(tr1 & tr2 & x & H1 & H2 & ->)] end.
    + left. exists r. split; [by constructor | done].
    + right. exists (EvLoadPath model path a :: tr1), tr2, x.
      repeat split; [by constructor | done].
  - inversion Hr; subst.
    match goal with Hk : Runs (try_catch k h) ?t o |- _ =>
      destruct (IH t Hk) as [(r & H1 & ->)|(tr1 & tr2 & x & H1 & H2 & ->)] end.
    + left. exists r. split; [by constructor | done].
    + right. exists (EvUpdate text :: tr1), tr2, x.
      repeat split; [by constructor | done].
  - inversion Hr; subst.
    match goal with Hk : Runs (try_catch (k ?a) h) tr o |- _ =>
      destruct (IH a tr Hk) as [(r & H1 & ->)|(tr1 & tr2 & x & H1 & H2 & ->)] end.
    + left. exists r. split; [by econstructor | done].
    + right. exists tr1, tr2, x. repeat split; [by econstructor | done].
Qed.

Lemma Runs_try_catch_intro {X R} (m : Eff X R) (h : X -> Eff X R) tr1 tr2 x o :
  Runs m tr1 (Thrown x) -> Runs (h x) tr2 o ->
  Runs (try_catch m h) (tr1 ++ tr2) o.
Proof.
  intros H1. remember (Thrown x) as ox eqn:Ho.
  induction H1; intros H2; simpl; try discriminate.
  - by injection Ho as ->.
  - constructor. by apply IHRuns.
  - constructor. by apply IHRuns.
  - econstructor. by apply IHRuns.
Qed.

Lemma quiet_app tr1 tr2 : quiet tr1 -> quiet tr2 -> quiet (tr1 ++ tr2).
Proof. apply Forall_app_2. Qed.

Section Laws.

Context `{Imports}.

(** *** Silent computations *)

Lemma silent_ret {A} (a : A) : Silent (ret a).
Proof. intros c tr o Hr. inversion Hr. constructor. Qed.

Lemma silent_throw {A} : Silent (@throw A).
Proof. intros c tr o Hr. inversion Hr. constructor. Qed.

Lemma silent_get : Silent get.
Proof. intros c tr o Hr. inversion Hr. constructor. Qed.

Lemma silent_modify f : Silent (modify f).
Proof. intros c tr o Hr. inversion Hr. constructor. Qed.

Lemma silent_or_throw {A} (x : option A) : Silent (or_throw x).
Proof. destruct x; [apply silent_ret | apply silent_throw]. Qed.

Lemma silent_bind {A B} (m : M A) (f : A -> M B) :
  Silent m -> (forall a, Silent (f a)) -> Silent (bind m f).
Proof.
  intros Hm Hf c tr o Hr. unfold bind in Hr.
  apply Runs_bindE in Hr as [(tr1 & tr2 & [c1 a] & H1 & H2 & ->)|(x & H1 & ->)].
  - apply quiet_app; [by eapply Hm | by eapply Hf].
  - by eapply Hm.
Qed.

Lemma silent_loadPath model path : Silent (DomainSelector.loadPath model path).
Proof.
  intros c tr o Hr. inversion Hr; subst.
  match goal with Hk : Runs (Ret _) _ _ |- _ => inversion Hk; subst end.
  by repeat constructor.
Qed.

End Laws.

Create HintDb silent.

#[local] Hint Resolve silent_ret silent_throw silent_get silent_modify
  silent_or_throw silent_loadPath : silent.

(** Splits a computation along its binds and branches. *)
Ltac silent :=
  repeat first
    [ apply silent_bind; [| intros ?]
    | progress eauto with silent
    | match goal with
      | |- Silent (match ?x with _ => _ end) => destruct x
      | |- Silent (if ?b then _ else _) => destruct b
      | |- Silent (let '(_, _) := ?x in _) => destruct x
      end ].

Section Claims.

Context `{Imports}.

(** ** Resolving a field *)

(** C5. For the field inputs 0 and 1, the shorthands of the always-true
    and always-false leaves, [DomainSelector.loadFieldDef] returns the synthetic
    descriptor [{ type: "integer" }] at once: the computation is a plain
    return, so the field service is not consulted. *)
Theorem loadFieldDef_shorthand model c :
  DomainSelector.loadFieldDef model (JNum 0) c = Ret (c, FDObj integer_field) /\
  DomainSelector.loadFieldDef model (JNum 1) c = Ret (c, FDObj integer_field).
Proof. split; reflexivity. Qed.

(** C9. For the empty string, [DomainSelector.loadFieldDef] returns the synthetic integer
    descriptor and not [null]: the test on ["01"] accepts the empty string
    before the guard on empty and non-string fields is reached.  For a
    string field that guard never answers: [null] comes back only after
    the field service has been asked. *)
Theorem loadFieldDef_empty_string model c :
  DomainSelector.loadFieldDef model (JStr "") c = Ret (c, FDObj integer_field) /\
  forall path tr c',
    Runs (DomainSelector.loadFieldDef model (JStr path) c) tr (Returned (c', FDNull)) ->
    exists answer tr', tr = EvLoadPath model path answer :: tr'.
Proof.
  split; [reflexivity|].
  intros path tr c' Hr. unfold DomainSelector.loadFieldDef, bind in Hr.
  cbn [Js.toString Js.to_string or_throw ret bindE fst snd] in Hr.
  destruct (Js.includes "01" path) eqn:Hinc.
  - inversion Hr.
  - destruct path as [|a path]; [discriminate Hinc|].
    simpl in Hr. inversion Hr; subst. eauto.
Qed.

(** ** Changing the operator or the value of a leaf *)

Lemma with_obj_twice n o1 o2 c :
  with_obj n o2 (with_obj n o1 c) = with_obj n o2 c.
Proof.
  unfold with_obj, with_store. simpl. by rewrite insert_insert_eq.
Qed.

Lemma write_eq n o c : DomainSelector.write n o c = Ret (with_obj n o c, tt).
Proof. reflexivity. Qed.

Lemma read_leaf_eq n l c :
  heap (store c) !! n = Some (Leaf l) -> DomainSelector.read_leaf n c = Ret (c, l).
Proof.
  intros Hl. unfold DomainSelector.read_leaf, DomainSelector.read, bind, get. simpl. by rewrite Hl.
Qed.

(** What [DomainSelector.updateLeafOperator] does on a leaf that has an operator, for a
    key the registry knows. *)
Lemma updateLeafOperator_eq c node l previous key next :
  heap (store c) !! node = Some (Leaf l) ->
  leaf_operator l = Some previous ->
  findOperator key = Some next ->
  DomainSelector.updateLeafOperator node key c =
    if decide (op_valueMode previous <> op_valueMode next) then
      match DomainSelector.migrate (op_valueMode previous) (op_valueMode next)
              (leaf_field l) (leaf_value l) with
      | Some v => DomainSelector.notifyChanges (with_obj node (Leaf (leaf_with l (Some next) v)) c)
      | None =>
          Throw (with_obj node (Leaf (leaf_with l (Some next) (leaf_value l))) c)
      end
    else
      DomainSelector.notifyChanges (with_obj node (Leaf (leaf_with l (Some next) (leaf_value l))) c).
Proof.
  intros Hl Hp Hf. unfold DomainSelector.updateLeafOperator.
  unfold bind at 1. rewrite (read_leaf_eq _ _ _ Hl). cbn [bindE snd fst].
  rewrite Hf, Hp. unfold bind at 1. cbn [or_throw ret bindE snd fst].
  unfold bind at 1. rewrite write_eq. cbn [bindE snd fst].
  unfold bind at 1. cbn [or_throw ret bindE snd fst].
  unfold bind at 1.
  destruct (decide (op_valueMode previous <> op_valueMode next)) as [Hne|He].
  - unfold bind at 1.
    destruct (DomainSelector.migrate _ _ _ _) as [v|]; cbn [or_throw ret throw bindE snd fst].
    + rewrite write_eq. cbn [bindE snd fst]. by rewrite with_obj_twice.
    + reflexivity.
  - reflexivity.
Qed.

Lemma migrate_table field old previous next v :
  migration field old previous next v ->
  DomainSelector.migrate previous next field old = Some v.
Proof.
  unfold DomainSelector.migrate.
  destruct 1; unfold mode_none, mode_multiple, mode_single in *;
    repeat case_decide; intuition (subst; try congruence); reflexivity.
Qed.

(** C1. On a leaf whose operator has another [valueMode] than the new
    one, [DomainSelector.updateLeafOperator] installs the new operator and migrates the
    value as the table of the specification says: to ["none"] it becomes
    [false]; from ["none"] to ["multiple"], [[]]; from a single-valued
    mode to ["multiple"], [[old]]; from ["none"] to a single-valued mode,
    the default value of the field; from ["multiple"] to a single-valued
    mode, the first element of the old list.  The method then goes on to
    notify from that state. *)
Theorem updateLeafOperator_migrates c node l previous key next v :
  heap (store c) !! node = Some (Leaf l) ->
  leaf_operator l = Some previous ->
  findOperator key = Some next ->
  op_valueMode previous <> op_valueMode next ->
  migration (leaf_field l) (leaf_value l)
    (op_valueMode previous) (op_valueMode next) v ->
  exists c',
    DomainSelector.updateLeafOperator node key c = DomainSelector.notifyChanges c' /\
    c' = with_obj node (Leaf (leaf_with l (Some next) v)) c /\
    heap (store c') !! node =
      Some (Leaf {| leaf_field := leaf_field l; leaf_operator := Some next;
                    leaf_value := v |}).
Proof.
  intros Hl Hp Hf Hne Hm. eexists. split; [|split; [reflexivity|]].
  - rewrite (updateLeafOperator_eq _ _ _ _ _ _ Hl Hp Hf).
    rewrite decide_True by done. by rewrite (migrate_table _ _ _ _ _ Hm).
  - simpl. by rewrite lookup_insert_eq.
Qed.

(** The value [DomainSelector.updateLeafOperator] leaves when a leaf whose operator is
    of mode ["multiple"] and whose value is the empty list gets a
    single-valued operator: [[][0]], that is [undefined]. *)
Lemma updateLeafOperator_empty_list c node l previous key next :
  heap (store c) !! node = Some (Leaf l) ->
  leaf_operator l = Some previous ->
  findOperator key = Some next ->
  mode_multiple (op_valueMode previous) ->
  mode_single (op_valueMode next) ->
  leaf_value l = JArr [] ->
  DomainSelector.updateLeafOperator node key c =
    DomainSelector.notifyChanges (with_obj node (Leaf (leaf_with l (Some next) JUndefined)) c).
Proof.
  intros Hl Hp Hf Hm [Hs1 Hs2] Hv.
  rewrite (updateLeafOperator_eq _ _ _ _ _ _ Hl Hp Hf).
  unfold mode_multiple in Hm. unfold DomainSelector.migrate. rewrite Hm, Hv.
  repeat case_decide; try done; congruence.
Qed.

(** C8. When the new operator has the [valueMode] of the current one,
    [DomainSelector.updateLeafOperator] changes the operator and leaves the value of the
    leaf as it is; and [DomainSelector.updateLeafValue] writes the value it is given,
    whatever its shape.  No other object of the store is touched. *)
Theorem same_mode_keeps_value c node l w :
  heap (store c) !! node = Some (Leaf l) ->
  (forall previous key next,
      leaf_operator l = Some previous ->
      findOperator key = Some next ->
      op_valueMode previous = op_valueMode next ->
      DomainSelector.updateLeafOperator node key c =
        DomainSelector.notifyChanges
          (with_obj node (Leaf (leaf_with l (Some next) (leaf_value l))) c)) /\
  DomainSelector.updateLeafValue node w c =
    DomainSelector.notifyChanges (with_obj node (Leaf (leaf_with l (leaf_operator l) w)) c).
Proof.
  intros Hl. split.
  - intros previous key next Hp Hf He.
    rewrite (updateLeafOperator_eq _ _ _ _ _ _ Hl Hp Hf).
    by rewrite decide_False by (intros Hne; by apply Hne).
  - unfold DomainSelector.updateLeafValue. unfold bind at 1.
    rewrite (read_leaf_eq _ _ _ Hl). cbn [bindE snd fst].
    unfold bind at 1. by rewrite write_eq.
Qed.

(** ** The operators offered for a leaf *)

Lemma some_same_key_spec l current ops :
  leaf_operator l = Some current ->
  DomainSelector.some_same_key l ops = Some (bool_decide (op_key current ∈ op_key <$> ops)).
Proof.
  intros Hc. induction ops as [|o ops IH]; cbn [DomainSelector.some_same_key].
  - rewrite bool_decide_eq_false_2; [done|].
    rewrite fmap_nil. by intros ?%elem_of_nil.
  - unfold DomainSelector.same_key. rewrite Hc.
    destruct (String.eqb_spec (op_key o) (op_key current)) as [He|Hne].
    + rewrite bool_decide_eq_true_2; [done|].
      rewrite fmap_cons, He. by left.
    + rewrite IH. f_equal. apply bool_decide_ext.
      rewrite fmap_cons, elem_of_cons.
      split; [by right | intros [?|?]; [congruence | done]].
Qed.

(** C4. The list [getOperatorsInfo(node)] offers for a leaf holds an
    operator with the key of the leaf's current operator.  When no
    operator registered for the type of the field has that key, the list
    is the registered operators followed by the current operator itself:
    it is appended, not dropped.  Otherwise the list is the registered
    one. *)
Theorem getOperatorsInfo_keeps_current (l : LeafNode) (current : Operator) :
  leaf_operator l = Some current ->
  let registered := getOperatorsInfo (fd_type (leaf_field l)) in
  exists offered : list (option Operator),
    DomainSelector.getOperatorsInfo l = Some offered /\
    (exists o, Some o ∈ offered /\ op_key o = op_key current) /\
    (op_key current ∉ op_key <$> registered ->
       offered = ((Some <$> registered) ++ [Some current])%list) /\
    (op_key current ∈ op_key <$> registered -> offered = Some <$> registered).
Proof.
  intros Hc registered. unfold DomainSelector.getOperatorsInfo.
  fold registered. rewrite (some_same_key_spec _ _ _ Hc).
  destruct (decide (op_key current ∈ op_key <$> registered)) as [Hin|Hout].
  - rewrite bool_decide_eq_true_2 by done. eexists. split; [reflexivity|].
    split; [|split; first [done | intros ?; contradiction]].
    apply list_elem_of_fmap in Hin as (o & Hk & Ho).
    exists o. split; [|done]. apply list_elem_of_fmap. eauto.
  - rewrite bool_decide_eq_false_2 by done. rewrite Hc.
    eexists. split; [reflexivity|].
    split; [|split; first [done | intros ?; contradiction]].
    exists current. split; [|done]. apply elem_of_app. right. by left.
Qed.

(** ** Changing the field of a leaf *)

Lemma plain_loadFieldDef model field c :
  Plain (DomainSelector.loadFieldDef model field c).
Proof.
  unfold DomainSelector.loadFieldDef, DomainSelector.loadPath, bind.
  destruct (Js.toString field) as [s|];
    cbn [or_throw ret throw bindE fst snd]; [|constructor].
  destruct (Js.includes "01" s); [constructor|].
  destruct (Js.not_string_or_empty field); [constructor|].
  cbn [bindE fst snd]. constructor. intros [info|];
    cbn [or_throw ret throw bindE fst snd]; [|constructor].
  destruct (isInvalid info); [constructor|].
  destruct (last (modelsInfo info));
    cbn [or_throw ret throw bindE fst snd]; constructor.
Qed.

Lemma updateField_eq c node field :
  DomainSelector.updateField node field c =
    bindE (DomainSelector.loadFieldDef (resModel (props c)) field c)
      (fun ca =>
         (l <- DomainSelector.read_leaf node ;;
          let l1 := {| leaf_field := spread_with_name ca.2 field;
                       leaf_operator := leaf_operator l;
                       leaf_value := leaf_value l |} in
          DomainSelector.write node (Leaf l1) ;;;
          match ca.2 with
          | FDObj fd =>
              DomainSelector.write node
                (Leaf {| leaf_field := leaf_field l1;
                         leaf_operator := head (getOperatorsInfo (fd_type fd));
                         leaf_value := getDefaultFieldValue fd |}) ;;;
              DomainSelector.notifyChanges
          | FDNull | FDUndefined => throw
          end) ca.1).
Proof. reflexivity. Qed.

(** C6. On a leaf, [updateField(node, field)] first resolves the
    descriptor of [field]; when that gives the descriptor [fd], the leaf
    gets [fd] with [name: field] as its field, the first operator
    registered for the type of [fd] as its operator and the default value
    of [fd] as its value, and the method goes on to notify from that
    state: after the resolution, its executions are those of
    [notifyChanges] there. *)
Theorem updateField_resets c node l field fd tr1 :
  heap (store c) !! node = Some (Leaf l) ->
  Runs (DomainSelector.loadFieldDef (resModel (props c)) field c) tr1
       (Returned (c, FDObj fd)) ->
  let c' :=
    with_obj node
      (Leaf {| leaf_field := spread_with_name (FDObj fd) field;
               leaf_operator := head (getOperatorsInfo (fd_type fd));
               leaf_value := getDefaultFieldValue fd |}) c in
  forall tr2 o,
    Runs (DomainSelector.updateField node field c) (tr1 ++ tr2) o <->
    Runs (DomainSelector.notifyChanges c') tr2 o.
Proof.
  intros Hl Hload c' tr2 o. rewrite updateField_eq.
  match goal with |- context [bindE _ ?k] => set (K := k) end.
  assert (Hk : K (c, FDObj fd) = DomainSelector.notifyChanges c').
  { subst K. cbn beta. cbn [fst snd]. unfold bind at 1.
    rewrite (read_leaf_eq _ _ _ Hl).
    cbn [bindE fst snd]. unfold bind at 1. rewrite write_eq.
    cbn [bindE fst snd]. unfold bind at 1. rewrite write_eq.
    cbn [bindE fst snd leaf_field]. by rewrite with_obj_twice. }
  split; intros Hr.
  - rewrite <- Hk. exact (Runs_bindE_prefix _ K _ _ _ _ (plain_loadFieldDef _ _ _) Hload Hr).
  - apply (Runs_bindE_intro _ K _ _ _ _ Hload). by rewrite Hk.
Qed.

(** ** Inserting a branch *)

Lemma insert_after_spec sibling node before after :
  sibling ∉ before ->
  Nodes.insert_after sibling node (before ++ sibling :: after) =
    (before ++ sibling :: node :: after)%list.
Proof.
  intros Hb. induction before as [|y before IH]; simpl.
  - by rewrite N.eqb_refl.
  - apply not_elem_of_cons in Hb as [Hne Hb].
    destruct (N.eqb_spec y sibling) as [->|_]; [done|]. by rewrite IH.
Qed.

Lemma createNewLeaf_eq c leaf l :
  defaultLeaf c = Some leaf ->
  heap (store c) !! leaf = Some (Leaf l) ->
  DomainSelector.createNewLeaf c =
    Ret (with_store (Nodes.alloc (Leaf l) (store c)).1 c, nextId (store c)).
Proof.
  intros Hd Hl. unfold DomainSelector.createNewLeaf, bind, get.
  cbn [bindE fst snd]. rewrite Hd. cbn [or_throw ret bindE fst snd Nodes.clone].
  by rewrite Hl.
Qed.

Lemma read_eq n o c :
  heap (store c) !! n = Some o -> DomainSelector.read n c = Ret (c, o).
Proof.
  intros Hl. unfold DomainSelector.read, bind, get. simpl. by rewrite Hl.
Qed.

Lemma wf_fresh st n :
  Store_wf st -> (nextId st <= n)%N -> heap st !! n = None.
Proof.
  intros Hwf Hle. destruct (heap st !! n) eqn:Hn; [|done].
  assert (n < nextId st)%N by (by eapply (Hwf n)). lia.
Qed.

Lemma wf_old st n o :
  Store_wf st -> heap st !! n = Some o -> (n < nextId st)%N.
Proof. intros Hwf Hn. by eapply (Hwf n). Qed.

(** Allocation and writes to existing objects keep the ids of the store
    below the next id. *)
Lemma alloc_wf o st : Store_wf st -> Store_wf (Nodes.alloc o st).1.
Proof.
  intros Hwf. unfold Store_wf, Nodes.alloc. cbn [fst heap nextId].
  apply map_Forall_insert_2; [lia|].
  eapply map_Forall_impl; [exact Hwf|]. cbn beta. intros n _ Hn. lia.
Qed.

Lemma set_obj_wf n o st :
  (n < nextId st)%N -> Store_wf st -> Store_wf (set_obj n o st).
Proof.
  intros Hn Hwf. unfold Store_wf, set_obj. cbn [heap nextId].
  by apply map_Forall_insert_2.
Qed.

(** C10. On a branch [parent], [insertBranch(parent, node)] creates two
    clones of the default leaf, with the fresh ids [first] and [second],
    and a new branch [branch] over exactly these two, whose operator is
    ["OR"] if the parent's is ["AND"] and ["AND"] otherwise; it puts
    [branch] into the children of [parent] right after [node], and goes
    on to notify from that state. *)
Theorem insertBranch_inserts c parent node b leaf l :
  Store_wf (store c) ->
  heap (store c) !! parent = Some (Branch b) ->
  defaultLeaf c = Some leaf ->
  heap (store c) !! leaf = Some (Leaf l) ->
  let first := nextId (store c) in
  let second := N.succ first in
  let branch := N.succ second in
  let nextOperator :=
    if String.eqb (branch_operator b) "AND" then "OR" else "AND" in
  let children' := Nodes.insert_after node branch (branch_children b) in
  let c' :=
    with_store
      {| heap :=
           <[parent := Branch {| branch_operator := branch_operator b;
                                 branch_children := children' |}]>
             (<[branch := Branch {| branch_operator := nextOperator;
                                    branch_children := [first; second] |}]>
                (<[second := Leaf l]> (<[first := Leaf l]> (heap (store c)))));
         nextId := N.succ branch |} c in
  DomainSelector.insertBranch parent node c = DomainSelector.notifyChanges c' /\
  (heap (store c) !! first = None /\ heap (store c) !! second = None /\
   heap (store c) !! branch = None /\ first <> second) /\
  (heap (store c') !! branch =
     Some (Branch {| branch_operator := nextOperator;
                     branch_children := [first; second] |}) /\
   heap (store c') !! first = Some (Leaf l) /\
   heap (store c') !! second = Some (Leaf l)) /\
  (forall before after,
      branch_children b = (before ++ node :: after)%list -> node ∉ before ->
      children' = (before ++ node :: branch :: after)%list).
Proof.
  intros Hwf Hp Hd Hl first second branch nextOperator children' c'.
  pose proof (wf_old _ _ _ Hwf Hp) as Hparent.
  pose proof (wf_old _ _ _ Hwf Hl) as Hleaf.
  assert (Hf1 : heap (store c) !! first = None) by (apply wf_fresh; [done | lia]).
  assert (Hf2 : heap (store c) !! second = None)
    by (apply wf_fresh; [done | unfold second, first; lia]).
  assert (Hf3 : heap (store c) !! branch = None)
    by (apply wf_fresh; [done | unfold branch, second, first; lia]).
  assert (Hne : parent <> first /\ parent <> second /\ parent <> branch /\
                leaf <> first /\ first <> second /\ first <> branch /\
                second <> branch)
    by (unfold branch, second, first; lia).
  destruct Hne as (Hn1 & Hn2 & Hn3 & Hn4 & Hn5 & Hn6 & Hn7).
  split; [|split; [done|split]].
  - unfold DomainSelector.insertBranch. unfold bind at 1.
    rewrite (read_eq _ _ _ Hp). cbn [bindE fst snd].
    unfold bind at 1. unfold DomainSelector.createNewBranch.
    unfold bind at 1. rewrite (createNewLeaf_eq _ _ _ Hd Hl).
    cbn [bindE fst snd]. unfold bind at 1.
    erewrite createNewLeaf_eq; [|exact Hd|].
    2:{ cbn. rewrite lookup_insert_ne by done. exact Hl. }
    cbn [bindE fst snd]. unfold bind, get, modify, ret, DomainSelector.on_store.
    cbn [bindE fst snd]. unfold Nodes.insertAfter. cbn.
    rewrite !lookup_insert_ne by done. rewrite Hp. reflexivity.
  - subst c'. cbn.
    rewrite lookup_insert_ne by done. rewrite lookup_insert_eq.
    rewrite !(lookup_insert_ne _ parent) by done.
    rewrite !(lookup_insert_ne _ branch) by done.
    rewrite lookup_insert_ne by done.
    by rewrite !lookup_insert_eq.
  - intros before after Hb Hnot. subst children'. rewrite Hb.
    by apply insert_after_spec.
Qed.

(** ** Rebuilding the tree *)

Lemma post_bind {A B} (m : M A) (f : A -> M B) Q :
  (forall a, Post (f a) Q) -> Post (bind m f) Q.
Proof.
  intros Hf c tr c' b Hr. unfold bind in Hr.
  apply Runs_bindE in Hr as [(tr1 & tr2 & [c1 a] & H1 & H2 & ->)|(x & H1 & Hx)].
  - by eapply Hf.
  - discriminate Hx.
Qed.

Lemma post_modify g (Q : Component -> unit -> Prop) :
  (forall c, Q (g c) tt) -> Post (modify g) Q.
Proof. intros HQ c tr c' [] Hr. inversion Hr; subst. apply HQ. Qed.

Lemma rebuild_supported p :
  Post (DomainSelector.rebuild p) (fun c' _ => tree_isSupported c' = true).
Proof.
  unfold DomainSelector.rebuild.
  repeat (apply post_bind; intros ?). by apply post_modify.
Qed.

Lemma fallback_eq failed d st' root :
  Domain_new (JArr []) = Some d ->
  TreeBuilder_build d ∅ (store failed) = (st', Some root) ->
  DomainSelector.fallback failed =
    Ret (with_root (Some root) (with_store st' (with_isSupported false failed)), tt).
Proof.
  intros Hd Hb. unfold DomainSelector.fallback, DomainSelector.build.
  unfold bind, get, modify. cbn [bindE fst snd]. rewrite Hd.
  cbn [or_throw ret bindE fst snd with_isSupported store]. by rewrite Hb.
Qed.

(** C3. Provided the builder builds the empty domain, whenever the
    rebuild of the tree fails, at whatever point (the parse, the
    extraction or resolution of the fields, the build of the tree or of
    the default leaf), [onPropsUpdated] catches the failure, marks the
    tree as not supported and makes the root the one built from the empty
    domain and no field definitions.  No execution of [onPropsUpdated]
    ends in an exception: it returns either after a rebuild that
    succeeded, the tree marked as supported, or with that fallback. *)
Theorem onPropsUpdated_falls_back p c :
  (forall st, exists d, Domain_new (JArr []) = Some d /\
                        is_Some (TreeBuilder_build d ∅ st).2) ->
  let fell_back (failed c' : Component) :=
    exists d root,
      Domain_new (JArr []) = Some d /\
      TreeBuilder_build d ∅ (store failed) = (store c', Some root) /\
      tree_isSupported c' = false /\ tree_root c' = Some root /\
      defaultLeaf c' = defaultLeaf failed /\ props c' = props failed in
  (forall tr failed,
      Runs (DomainSelector.rebuild p c) tr (Thrown failed) ->
      exists c', Runs (DomainSelector.onPropsUpdated p c) tr (Returned (c', tt)) /\
                 fell_back failed c') /\
  (forall tr o,
      Runs (DomainSelector.onPropsUpdated p c) tr o ->
      exists c', o = Returned (c', tt) /\
        ((Runs (DomainSelector.rebuild p c) tr (Returned (c', tt)) /\
          tree_isSupported c' = true) \/
         (exists failed,
             Runs (DomainSelector.rebuild p c) tr (Thrown failed) /\
             fell_back failed c'))).
Proof.
  intros Hempty fell_back.
  assert (Hfb : forall failed, exists c',
             DomainSelector.fallback failed = Ret (c', tt) /\ fell_back failed c').
  { intros failed. destruct (Hempty (store failed)) as (d & Hd & [root Hroot]).
    destruct (TreeBuilder_build d ∅ (store failed)) as [st' r] eqn:Hb.
    simpl in Hroot. subst r. eexists. split; [by eapply fallback_eq|].
    exists d, root. by repeat split. }
  split.
  - intros tr failed Hr. destruct (Hfb failed) as (c' & Hf & Hc').
    exists c'. split; [|done]. unfold DomainSelector.onPropsUpdated, try.
    rewrite <- (app_nil_r tr). eapply Runs_try_catch_intro; [done|].
    rewrite Hf. constructor.
  - intros tr o Hr. unfold DomainSelector.onPropsUpdated, try in Hr.
    apply Runs_try_catch in Hr
      as [([c' []] & Hr & ->)|(tr1 & tr2 & failed & Hr & Hh & ->)].
    + exists c'. split; [done|]. left. split; [done|].
      by eapply (rebuild_supported p).
    + destruct (Hfb failed) as (c' & Hf & Hc'). rewrite Hf in Hh.
      inversion Hh; subst. rewrite app_nil_r. exists c'. split; [done|].
      right. by exists failed.
Qed.

(** ** Mutations and notification *)

Lemma notified_after tr1 tr2 o : quiet tr1 -> notified tr2 o -> notified (tr1 ++ tr2) o.
Proof.
  intros Hq Hn. destruct o as [[c' []]|x]; simpl in *.
  - destruct Hn as (tr0 & root & text & -> & Hq0 & Hroot & Htext).
    exists (tr1 ++ tr0)%list, root, text.
    rewrite app_assoc. repeat split; try done. by apply quiet_app.
  - by apply quiet_app.
Qed.

Lemma ends_bind {A} (m : M A) (f : A -> M unit) :
  Silent m -> (forall a, EndsNotifying (f a)) -> EndsNotifying (bind m f).
Proof.
  intros Hm Hf c tr o Hr. unfold bind in Hr.
  apply Runs_bindE in Hr as [(tr1 & tr2 & [c1 a] & H1 & H2 & ->)|(x & H1 & ->)].
  - apply notified_after; [by eapply Hm | by eapply Hf].
  - simpl. by eapply Hm.
Qed.

Lemma ends_throw : EndsNotifying throw.
Proof. intros c tr o Hr. inversion Hr; subst. constructor. Qed.

Lemma ends_notifyChanges : EndsNotifying DomainSelector.notifyChanges.
Proof.
  intros c tr o Hr.
  unfold DomainSelector.notifyChanges, DomainSelector.update, bind, get in Hr.
  cbn [bindE fst snd] in Hr.
  destruct (tree_root c) as [root|] eqn:Hroot;
    cbn [or_throw ret throw bindE fst snd] in Hr.
  - destruct (toDomainString (store c) root) as [text|] eqn:Htext;
      cbn [or_throw ret throw bindE fst snd] in Hr.
    + inversion Hr; subst.
      match goal with Hk : Runs (Ret _) _ _ |- _ => inversion Hk; subst end.
      exists [], root, text. repeat split; try done. constructor.
    + inversion Hr; subst. constructor.
  - inversion Hr; subst. constructor.
Qed.

Lemma silent_read n : Silent (DomainSelector.read n).
Proof. unfold DomainSelector.read. silent. Qed.

Lemma silent_read_leaf n : Silent (DomainSelector.read_leaf n).
Proof. unfold DomainSelector.read_leaf. pose proof silent_read. silent. Qed.

Lemma silent_write n o : Silent (DomainSelector.write n o).
Proof. unfold DomainSelector.write. silent. Qed.

Lemma silent_on_store f : Silent (DomainSelector.on_store f).
Proof. unfold DomainSelector.on_store. silent. Qed.

Lemma silent_loadFieldDef model field :
  Silent (DomainSelector.loadFieldDef model field).
Proof. unfold DomainSelector.loadFieldDef. silent. Qed.

Lemma silent_createNewLeaf : Silent DomainSelector.createNewLeaf.
Proof. unfold DomainSelector.createNewLeaf. silent. Qed.

Lemma silent_createNewBranch operator :
  Silent (DomainSelector.createNewBranch operator).
Proof.
  unfold DomainSelector.createNewBranch. pose proof silent_createNewLeaf. silent.
Qed.

Hint Resolve silent_read silent_read_leaf silent_write silent_on_store
  silent_loadFieldDef silent_createNewLeaf silent_createNewBranch : silent.

Ltac ends :=
  repeat first
    [ apply ends_notifyChanges
    | apply ends_throw
    | apply ends_bind; [solve [silent] | intros ?]
    | match goal with
      | |- EndsNotifying (match ?x with _ => _ end) => destruct x
      end ].

Lemma perform_ends_notifying mu : EndsNotifying (DomainSelector.perform mu).
Proof.
  destruct mu; cbn [DomainSelector.perform];
    unfold DomainSelector.insertRootLeaf, DomainSelector.insertLeaf,
      DomainSelector.insertBranch, DomainSelector.delete,
      DomainSelector.updateBranchOperator, DomainSelector.updateField,
      DomainSelector.updateLeafOperator, DomainSelector.updateLeafValue;
    ends.
Qed.


End Claims.

(** * Further properties *)

Set Warnings "-clear-no-such-hyp".

Section Further.

Context `{Imports}.

(** ** Pre- and postconditions *)

Lemma hoare_conseq {A} (P P' : Component -> Prop) (m : M A)
    (Q Q' : Component -> A -> Prop) (E E' : Component -> Prop) :
  Hoare P' m Q' E' ->
  (forall c, P c -> P' c) -> (forall c a, Q' c a -> Q c a) ->
  (forall c, E' c -> E c) ->
  Hoare P m Q E.
Proof.
  intros Hm HP HQ HE c tr o Hc Hr.
  specialize (Hm c tr o (HP c Hc) Hr). destruct o as [[c' a]|x]; eauto.
Qed.

Lemma hoare_ret {A} (a : A) (P : Component -> Prop) Q E :
  (forall c, P c -> Q c a) -> Hoare P (ret a) Q E.
Proof. intros HQ c tr o Hc Hr. inversion Hr; subst. by apply HQ. Qed.

Lemma hoare_throw {A} (P : Component -> Prop) (Q : Component -> A -> Prop)
    (E : Component -> Prop) :
  (forall c, P c -> E c) -> Hoare P throw Q E.
Proof. intros HE c tr o Hc Hr. inversion Hr; subst. by apply HE. Qed.

Lemma hoare_get (P : Component -> Prop) Q E :
  (forall c, P c -> Q c c) -> Hoare P get Q E.
Proof. intros HQ c tr o Hc Hr. inversion Hr; subst. by apply HQ. Qed.

Lemma hoare_modify g (P : Component -> Prop) Q E :
  (forall c, P c -> Q (g c) tt) -> Hoare P (modify g) Q E.
Proof. intros HQ c tr o Hc Hr. inversion Hr; subst. by apply HQ. Qed.

Lemma hoare_or_throw {A} (x : option A) (P : Component -> Prop) Q E :
  (forall c a, x = Some a -> P c -> Q c a) ->
  (forall c, x = None -> P c -> E c) ->
  Hoare P (or_throw x) Q E.
Proof.
  intros HQ HE. destruct x as [a|].
  - apply hoare_ret. eauto.
  - apply hoare_throw. eauto.
Qed.

Lemma hoare_bind {A B} (m : M A) (f : A -> M B) (P : Component -> Prop)
    (Q' : Component -> A -> Prop) (Q : Component -> B -> Prop) E :
  Hoare P m Q' E -> (forall a, Hoare (fun c => Q' c a) (f a) Q E) ->
  Hoare P (bind m f) Q E.
Proof.
  intros Hm Hf c tr o Hc Hr. unfold bind in Hr.
  apply Runs_bindE in Hr as [(tr1 & tr2 & [c1 a] & H1 & H2 & ->)|(x & H1 & ->)].
  - apply (Hf a c1 tr2 o); [|done]. exact (Hm c tr1 _ Hc H1).
  - exact (Hm c tr _ Hc H1).
Qed.

Lemma hoare_try {A} (m h : M A) (P : Component -> Prop) Q (E' E : Component -> Prop) :
  Hoare P m Q E' -> Hoare E' h Q E -> Hoare P (try m h) Q E.
Proof.
  intros Hm Hh c tr o Hc Hr. unfold try in Hr.
  apply Runs_try_catch in Hr as [(r & H1 & ->)|(tr1 & tr2 & x & H1 & H2 & ->)].
  - exact (Hm c tr _ Hc H1).
  - apply (Hh x tr2 o); [|done]. exact (Hm c tr1 _ Hc H1).
Qed.

Lemma hoare_loadPath model path (P : Component -> Prop) Q E :
  (forall c a, P c -> Q c a) -> Hoare P (DomainSelector.loadPath model path) Q E.
Proof.
  intros HQ c tr o Hc Hr. inversion Hr; subst.
  match goal with Hk : Runs (Ret _) _ _ |- _ => inversion Hk; subst end.
  by apply HQ.
Qed.

Lemma hoare_update text (P : Component -> Prop) Q E :
  (forall c, P c -> Q c tt) -> Hoare P (DomainSelector.update text) Q E.
Proof.
  intros HQ c tr o Hc Hr. inversion Hr; subst.
  match goal with Hk : Runs (Ret _) _ _ |- _ => inversion Hk; subst end.
  by apply HQ.
Qed.

(** *** Invariants *)

Lemma keeps_ret {A} I (a : A) : Keeps I (ret a).
Proof. by apply hoare_ret. Qed.

Lemma keeps_throw {A} I : Keeps I (@throw A).
Proof. by apply hoare_throw. Qed.

Lemma keeps_get I : Keeps I get.
Proof. by apply hoare_get. Qed.

Lemma keeps_or_throw {A} I (x : option A) : Keeps I (or_throw x).
Proof. by apply hoare_or_throw. Qed.

Lemma keeps_modify (I : Component -> Prop) g :
  (forall c, I c -> I (g c)) -> Keeps I (modify g).
Proof. intros Hg. by apply hoare_modify. Qed.

Lemma keeps_bind {A B} I (m : M A) (f : A -> M B) :
  Keeps I m -> (forall a, Keeps I (f a)) -> Keeps I (bind m f).
Proof. intros Hm Hf. eapply hoare_bind; [exact Hm|]. intros a. apply Hf. Qed.

Lemma keeps_loadPath I model path : Keeps I (DomainSelector.loadPath model path).
Proof. by apply hoare_loadPath. Qed.

Lemma keeps_update I text : Keeps I (DomainSelector.update text).
Proof. by apply hoare_update. Qed.

Ltac keeps_step side :=
  first
    [ apply keeps_bind; [| intros ?]
    | apply keeps_ret | apply keeps_throw | apply keeps_get
    | apply keeps_or_throw | apply keeps_loadPath | apply keeps_update
    | apply keeps_modify; side
    | match goal with
      | |- Keeps _ (match ?x with _ => _ end) => destruct x
      | |- Keeps _ (if ?b then _ else _) => destruct b
      end
    | progress cbv zeta ].

Ltac keeps side := repeat keeps_step side.

(** *** Computations without events *)

Lemma eventless_ret {A} (a : A) : Eventless (ret a).
Proof. intros c tr o Hr. by inversion Hr. Qed.

Lemma eventless_throw {A} : Eventless (@throw A).
Proof. intros c tr o Hr. by inversion Hr. Qed.

Lemma eventless_or_throw {A} (x : option A) : Eventless (or_throw x).
Proof. destruct x; [apply eventless_ret | apply eventless_throw]. Qed.

Lemma eventless_bind {A B} (m : M A) (f : A -> M B) :
  Eventless m -> (forall a, Eventless (f a)) -> Eventless (bind m f).
Proof.
  intros Hm Hf c tr o Hr. unfold bind in Hr.
  apply Runs_bindE in Hr as [(tr1 & tr2 & [c1 a] & H1 & H2 & ->)|(x & H1 & ->)].
  - by rewrite (Hm _ _ _ H1), (Hf _ _ _ _ H2).
  - by eapply Hm.
Qed.

Lemma asked_app tr1 tr2 : asked (tr1 ++ tr2) = (asked tr1 ++ asked tr2)%list.
Proof. apply omap_app. Qed.

(** ** Resolving fields *)

Lemma includes_01_exactly s : Js.includes "01" s = true <-> s ∈ shorthands.
Proof.
  unfold shorthands. rewrite !elem_of_cons, elem_of_nil.
  destruct s as [|a [|b [|d s]]]; cbn [Js.includes String.prefix];
    repeat match goal with
      | |- context [Ascii.ascii_dec ?x ?y] =>
          destruct (Ascii.ascii_dec x y) as [->|?]
      end; cbn; intuition congruence.
Qed.

(** X1. [loadFieldDef] takes a field for a shorthand, and answers at once
    with [{ type: "integer" }], exactly when the string form of the field
    is one of [""], ["0"], ["1"] and ["01"]: the numbers 0 and 1, but also
    these four strings and the arrays that print as them. *)
Theorem loadFieldDef_shorthand_exactly model field c s :
  Js.toString field = Some s ->
  DomainSelector.loadFieldDef model field c = Ret (c, FDObj integer_field)
  <-> s ∈ shorthands.
Proof.
  intros Hs. rewrite <- includes_01_exactly.
  unfold DomainSelector.loadFieldDef, bind. rewrite Hs.
  cbn [or_throw ret bindE fst snd].
  destruct (Js.includes "01" s); [done|].
  split; [|done]. destruct (Js.not_string_or_empty field); discriminate.
Qed.

Lemma keeps_loadFieldDef I model field :
  Keeps I (DomainSelector.loadFieldDef model field).
Proof. unfold DomainSelector.loadFieldDef. keeps idtac. Qed.

Lemma loadFieldDef_run model field c tr o :
  Runs (DomainSelector.loadFieldDef model field c) tr o ->
  state_of o = c /\ quiet tr /\
  (asked tr = [] \/
   exists path, field = JStr path /\ path <> "" /\ asked tr = [(model, path)]).
Proof.
  intros Hr. split; [|split].
  - pose proof (keeps_loadFieldDef (fun x => x = c) model field c tr o eq_refl Hr)
      as Hk.
    by destruct o as [[c' r]|x].
  - by eapply silent_loadFieldDef.
  - unfold DomainSelector.loadFieldDef in Hr. unfold bind at 1 in Hr.
    destruct (Js.toString field) as [s|] eqn:Hs;
      cbn [or_throw ret throw bindE fst snd] in Hr;
      [|inversion Hr; by left].
    destruct (Js.includes "01" s); [inversion Hr; by left|].
    destruct (Js.not_string_or_empty field) eqn:Hne; [inversion Hr; by left|].
    destruct field as [| |b|z|path|l]; try discriminate Hne.
    destruct path as [|a path]; [discriminate Hne|].
    injection Hs as <-. unfold bind at 1 in Hr.
    cbn [DomainSelector.loadPath bindE fst snd] in Hr.
    inversion Hr as [| |? ? ? answer tr' ? Hk| |]; subst.
    assert (HE : Eventless
                   (info <- or_throw answer ;;
                    (if isInvalid info then ret FDNull
                     else
                       let name := default "undefined" (last (names info)) in
                       m <- or_throw (last (modelsInfo info)) ;;
                       ret (match fieldDefs m !! name with
                            | Some fd => FDObj fd
                            | None => FDUndefined
                            end)))).
    { apply eventless_bind; [apply eventless_or_throw|].
      intros info. destruct (isInvalid info); [apply eventless_ret|].
      apply eventless_bind; [apply eventless_or_throw|].
      intros m. apply eventless_ret. }
    rewrite (HE c tr' o Hk).
    right. eexists. by repeat split.
Qed.

(** X2. [loadFieldDef] only reads: however it ends, the state is the one
    it started from and the owner has not been notified.  It puts at most
    one question to the field service, for the model and the path it was
    given, and none unless the field is a non-empty string. *)
Theorem loadFieldDef_reads_only model field c tr o :
  Runs (DomainSelector.loadFieldDef model field c) tr o ->
  state_of o = c /\ quiet tr /\
  (asked tr = [] \/
   exists path, field = JStr path /\ path <> "" /\ asked tr = [(model, path)]).
Proof. apply loadFieldDef_run. Qed.

Lemma loadFieldDef_returns_shorthand model field c tr c' r :
  Runs (DomainSelector.loadFieldDef model field c) tr (Returned (c', r)) ->
  Js.to_string field ∈ shorthands ->
  r = FDObj integer_field.
Proof.
  intros Hr Hs. unfold DomainSelector.loadFieldDef in Hr. unfold bind at 1 in Hr.
  destruct (Js.toString field) as [s|] eqn:Hts;
    cbn [or_throw ret throw bindE fst snd] in Hr; [|inversion Hr].
  assert (s = Js.to_string field) as ->
    by (destruct field; cbn [Js.toString] in Hts; congruence).
  apply includes_01_exactly in Hs. rewrite Hs in Hr. by inversion Hr.
Qed.

(** ** Looking the fields up together *)

Lemma keeps_try {A} I (m h : M A) : Keeps I m -> Keeps I h -> Keeps I (try m h).
Proof. intros Hm Hh. by eapply hoare_try. Qed.

Lemma keeps_settle I : Keeps I DomainSelector.settle.
Proof.
  intros c tr o Hc Hr. inversion Hr; subst.
  match goal with Hk : Runs (Ret _) _ _ |- _ => inversion Hk; subst end. done.
Qed.

Lemma arrange_Permutation {A} (l : list A) : forall order, arrange order l ≡ₚ l.
Proof.
  induction l as [|x rest IH]; intros order; cbn [arrange]; [done|].
  cbv zeta. rewrite <- Permutation_middle, take_drop. by rewrite IH.
Qed.

Lemma arrange_any {A} (l : list A) : forall l', l' ≡ₚ l -> exists order, arrange order l = l'.
Proof.
  induction l as [|x rest IH]; intros l' Hp.
  - apply Permutation_nil_r in Hp as ->. by exists [].
  - assert (x ∈ l') as Hx by (rewrite Hp; left).
    apply list_elem_of_split in Hx as (l1 & l2 & ->).
    symmetry in Hp. apply Permutation_cons_app_inv in Hp. symmetry in Hp.
    destruct (IH _ Hp) as (order & Ho).
    exists (length l1 :: order). cbn [arrange]. cbv zeta. change (tail (length l1 :: order)) with order.
    change (default 0%nat (head (length l1 :: order))) with (length l1).
    rewrite Ho. by rewrite take_app_length, drop_app_length.
Qed.

Lemma filter_split_Permutation {A} (f : A -> bool) (l : list A) :
  (List.filter (fun x => negb (f x)) l ++ List.filter f l)%list ≡ₚ l.
Proof.
  induction l as [|x rest IH]; cbn [List.filter]; [done|].
  destruct (f x); cbn [negb].
  - by rewrite <- Permutation_middle, IH.
  - cbn [app]. by rewrite IH.
Qed.

Lemma promise_run model field c tr o :
  Runs (DomainSelector.promise model field c) tr o ->
  exists r, o = Returned (c, r) /\
    if DomainSelector.awaits_service field
    then exists path a,
           field = JStr path /\ tr = [EvLoadPath model path a] /\ r = resolved a
    else tr = [] /\ r = at_once field.
Proof.
  unfold DomainSelector.promise, try, DomainSelector.loadFieldDef, at_once.
  unfold bind at 1 2.
  destruct (DomainSelector.awaits_service field) eqn:Haw.
  - destruct field as [| |b|z|path|l]; try discriminate.
    cbn [DomainSelector.awaits_service] in Haw. apply negb_true_iff in Haw.
    cbn [Js.toString Js.to_string or_throw ret bindE fst snd]. rewrite Haw.
    destruct path as [|a0 path]; [discriminate|].
    cbn [Js.not_string_or_empty]. unfold bind, DomainSelector.loadPath.
    cbn [bindE try_catch fst snd]. intros Hr.
    inversion Hr as [| |? ? ? a tr' ? Hrun| |]; subst.
    assert (o = Returned (c, resolved a) /\ tr' = []) as [-> ->].
    { destruct a as [info|];
        cbn [or_throw ret throw bindE try_catch fst snd resolved] in Hrun |- *.
      - destruct (isInvalid info); cbn [ret bindE try_catch fst snd] in Hrun.
        + by inversion Hrun.
        + destruct (last (modelsInfo info)) as [m|];
            cbn [or_throw ret throw bindE try_catch fst snd] in Hrun;
            by inversion Hrun.
      - by inversion Hrun. }
    exists (resolved a). split; [done|]. by exists (String a0 path), a.
  - destruct (Js.toString field) as [s|] eqn:Hts;
      cbn [or_throw ret throw bindE try_catch fst snd].
    + assert (Js.includes "01" s = false -> Js.not_string_or_empty field = true)
        as Hns.
      { intros Hi. destruct field as [| |b|z|path|l]; try done.
        cbn [Js.toString Js.to_string] in Hts. injection Hts as <-.
        cbn [DomainSelector.awaits_service] in Haw. by rewrite Hi in Haw. }
      destruct (Js.includes "01" s).
      * cbn [ret bindE try_catch fst snd]. intros Hr. inversion Hr; subst. eauto.
      * rewrite (Hns eq_refl). cbn [ret bindE try_catch fst snd].
        intros Hr. inversion Hr; subst. eauto.
    + intros Hr. inversion Hr; subst. eauto.
Qed.

Lemma questions_cons model f rest :
  questions model (f :: rest) =
    match f with
    | JStr path =>
        if Js.includes "01" path then questions model rest
        else (model, path) :: questions model rest
    | _ => questions model rest
    end.
Proof.
  unfold questions. destruct f as [| |b|z|path|l]; try reflexivity.
  cbn [omap list_omap]. by destruct (Js.includes "01" path).
Qed.

Lemma promises_run model fields : forall c tr o,
  Runs (DomainSelector.promises model fields c) tr o ->
  exists results,
    o = Returned (c, results) /\ quiet tr /\
    asked tr = questions model fields /\
    results.*1 = fields /\
    Forall (settled_by model tr) results.
Proof.
  induction fields as [|field rest IH]; intros c tr o Hr;
    cbn [DomainSelector.promises] in Hr.
  - inversion Hr; subst. exists []. by repeat constructor.
  - unfold bind at 1 in Hr.
    apply Runs_bindE in Hr as [(tr1 & tr2 & [c1 r] & H1 & H2 & ->)|(x & H1 & ->)];
      destruct (promise_run _ _ _ _ _ H1) as (r' & Ho & Hfield); [|discriminate].
    injection Ho as -> ->. cbn [fst snd] in H2. unfold bind in H2.
    apply Runs_bindE in H2 as [(tr3 & tr4 & [c2 rs] & H3 & H4 & ->)|(x & H3 & ->)];
      destruct (IH _ _ _ H3) as (results & Ho & Hq & Hasked & Hfst & Hall);
      [|discriminate].
    injection Ho as -> ->. cbn [fst snd] in H4. inversion H4; subst.
    rewrite app_nil_r.
    assert (Forall (settled_by model (tr1 ++ tr3)) results) as Hall'.
    { eapply Forall_impl; [exact Hall|]. intros e. unfold settled_by.
      destruct (DomainSelector.awaits_service e.1); [|done].
      intros (path & a & ? & ? & ?). exists path, a.
      rewrite elem_of_app. eauto. }
    exists ((field, r') :: results). split; [done|].
    rewrite asked_app, Hasked. cbn [fst snd].
    destruct (DomainSelector.awaits_service field) eqn:Haw.
    + destruct Hfield as (path & a & -> & -> & ->).
      cbn [DomainSelector.awaits_service] in Haw. apply negb_true_iff in Haw.
      rewrite questions_cons, Haw. split; [|split; [|split]].
      * apply quiet_app; [by repeat constructor | done].
      * done.
      * done.
      * constructor; [|done]. unfold settled_by. cbn [fst snd DomainSelector.awaits_service].
        rewrite Haw. exists path, a. rewrite elem_of_app, elem_of_cons. eauto.
    + destruct Hfield as [-> ->]. split; [|split; [|split]].
      * done.
      * rewrite questions_cons. destruct field as [| |b|z|path|l]; try done.
        cbn [DomainSelector.awaits_service] in Haw. apply negb_false_iff in Haw.
        by rewrite Haw.
      * done.
      * constructor; [|done]. unfold settled_by. cbn [fst snd]. by rewrite Haw.
Qed.

Lemma all_Some results : forall entries,
  DomainSelector.all results = Some entries ->
  results = (fun e => (e.1, Some e.2)) <$> entries.
Proof.
  induction results as [|[f [r|]] rest IH]; intros entries;
    cbn [DomainSelector.all]; [by intros [= <-] | | done].
  destruct (DomainSelector.all rest) as [es|]; [|done].
  intros [= <-]. cbn [fmap list_fmap fst snd]. by rewrite <- (IH es eq_refl).
Qed.

Lemma loadFieldDefs_run model fields c tr o :
  Runs (DomainSelector.loadFieldDefs model fields c) tr o ->
  state_of o = c /\ quiet tr /\ asked tr = questions model fields /\
  forall c' defs,
    o = Returned (c', defs) ->
    exists entries l,
      entries.*1 = fields /\
      Forall (fun e => settled_by model tr (e.1, Some e.2)) entries /\
      l ≡ₚ entries /\
      defs = foldl DomainSelector.assign ∅ l.
Proof.
  unfold DomainSelector.loadFieldDefs. unfold bind at 1. intros Hr.
  apply Runs_bindE in Hr as [(tr1 & tr2 & [c1 results] & H1 & H2 & ->)|(x & H1 & ->)];
    destruct (promises_run _ _ _ _ _ H1) as (rs & Ho & Hq & Hasked & Hfst & Hall);
    [|discriminate].
  injection Ho as -> ->. cbn [fst snd] in H2. unfold bind at 1 in H2.
  destruct (DomainSelector.all rs) as [entries|] eqn:Hentries;
    cbn [or_throw ret throw bindE fst snd] in H2.
  - unfold bind, DomainSelector.settle in H2. cbn [bindE fst snd] in H2.
    inversion H2; subst.
    match goal with Hk : Runs (ret _ _) _ _ |- _ => inversion Hk; subst end.
    rewrite app_nil_r. cbn [state_of fst].
    split; [done|]. split; [done|]. split; [done|].
    intros c' defs [= <- <-].
    apply all_Some in Hentries. subst rs.
    eexists entries, _. split; [|split; [|split; [|reflexivity]]].
    + rewrite <- list_fmap_compose. by apply list_fmap_ext.
    + rewrite Forall_fmap in Hall. exact Hall.
    + rewrite arrange_Permutation. apply filter_split_Permutation.
  - inversion H2; subst. rewrite app_nil_r. by repeat split.
Qed.







(** X4. However [loadFieldDefs] ends, it has not changed the state nor
    notified the owner, and the questions it has put to the field service
    are exactly one per field that is a string not occurring in ["01"],
    for the given model and in the order of the fields: whether or not
    another lookup was rejected, and none twice unless the field is there
    twice. *)
Theorem loadFieldDefs_asks model fields c tr o :
  Runs (DomainSelector.loadFieldDefs model fields c) tr o ->
  state_of o = c /\ quiet tr /\ asked tr = questions model fields.
Proof.
  intros Hr. destruct (loadFieldDefs_run _ _ _ _ _ Hr) as (Hc & Hq & Hasked & _).
  done.
Qed.

(** ** Extracting the fields of a domain *)

Lemma first_field_seq tuple l :
  DomainSelector.first_field (Seq tuple l) =
    match l with
    | [] => None
    | Atom t v :: _ =>
        Some (if (t =? 1)%Z || DomainSelector.is_0_or_1 v then [v] else [])
    | Seq _ _ :: _ => Some []
    end.
Proof. by destruct tuple. Qed.

Lemma first_field_atom t v :
  t <> 4%Z -> t <> 10%Z -> DomainSelector.first_field (Atom t v) = Some [].
Proof.
  intros H4 H10. unfold DomainSelector.first_field. cbn [ast_type].
  by rewrite (proj2 (Z.eqb_neq t 4) H4), (proj2 (Z.eqb_neq t 10) H10).
Qed.

Lemma is_0_or_1_spec v :
  DomainSelector.is_0_or_1 v = true -> v = JNum 0 \/ v = JNum 1.
Proof.
  destruct v as [| |b|z|s|l]; try discriminate.
  destruct z as [|[p|p|]|p]; try discriminate; eauto.
Qed.

Lemma extractFields_members nodes fields :
  DomainSelector.extractFields nodes = Some fields ->
  length fields <= length nodes /\
  Forall (fun f => exists tuple t rest,
                     Seq tuple (Atom t f :: rest) ∈ nodes /\
                     (t = 1%Z \/ f = JNum 0 \/ f = JNum 1)) fields.
Proof.
  revert fields. induction nodes as [|node nodes IH]; intros fields Hx;
    cbn [DomainSelector.extractFields] in Hx.
  - injection Hx as <-. split; [done | constructor].
  - destruct (DomainSelector.first_field node) as [f|] eqn:Hf; [|done].
    destruct (DomainSelector.extractFields nodes) as [fs|]; [|done].
    injection Hx as <-. destruct (IH fs eq_refl) as [Hlen Hall].
    assert (Hrest : Forall (fun f => exists tuple t rest,
                              Seq tuple (Atom t f :: rest) ∈ node :: nodes /\
                              (t = 1%Z \/ f = JNum 0 \/ f = JNum 1)) fs).
    { eapply Forall_impl; [exact Hall|]. cbn beta.
      intros g (tuple & t & rest & Hin & Ht). exists tuple, t, rest.
      split; [by right | done]. }
    destruct node as [t v|tuple l].
    + assert (f = []) as ->.
      { unfold DomainSelector.first_field in Hf.
        destruct (_ || _); [|congruence].
        destruct (Js.index0 v) as [[]|]; congruence. }
      cbn [app length]. split; [lia | done].
    + rewrite first_field_seq in Hf.
      destruct l as [|[t v|tuple' l'] rest]; [done| |].
      * destruct ((t =? 1)%Z || DomainSelector.is_0_or_1 v) eqn:Hc;
          injection Hf as <-; cbn [app length]; (split; [lia|]); [|done].
        constructor; [|done]. exists tuple, t, rest. split; [by left|].
        apply orb_true_iff in Hc as [Ht|Hv].
        -- left. by apply Z.eqb_eq.
        -- right. by apply is_0_or_1_spec.
      * injection Hf as <-. cbn [app length]. split; [lia | done].
Qed.

Lemma first_field_gives node f :
  DomainSelector.first_field node = Some f ->
  exists pick, gives node pick /\ f = option_list pick.
Proof.
  destruct node as [t v|tuple l].
  - intros Hf. exists None. split.
    + intros g (tuple & t' & rest & Hnode & _). discriminate Hnode.
    + unfold DomainSelector.first_field in Hf. simpl (option_list _).
      destruct (_ || _); [|congruence].
      destruct (Js.index0 v) as [[]|]; congruence.
  - rewrite first_field_seq.
    destruct l as [|[t v|tuple' l'] rest]; [done| |].
    + destruct ((t =? 1)%Z || DomainSelector.is_0_or_1 v) eqn:Hc; intros [= <-].
      * exists (Some v). split; [|done]. exists tuple, t, rest. split; [done|].
        apply orb_true_iff in Hc as [Ht|Hv].
        -- left. by apply Z.eqb_eq.
        -- right. by apply is_0_or_1_spec.
      * exists None. split; [|done].
        intros g (tuple0 & t0 & rest0 & [= -> -> -> ->] & Hg).
        apply orb_false_iff in Hc as [Ht Hv].
        destruct Hg as [->|[->| ->]]; discriminate.
    + intros [= <-]. exists None. split; [|done].
      intros g (tuple0 & t0 & rest0 & Hnode & _). discriminate Hnode.
Qed.

(** X5. [extractFieldsFromDomain] goes through the nodes of the domain in
    order, and takes from each the field it names, if it names one: the
    value of the first element of a list or tuple, when that element is a
    string or the number 0 or 1.  So the fields come in the order of their
    nodes, one at most for a node, and none is left out. *)
Theorem extractFields_sound nodes fields :
  DomainSelector.extractFields nodes = Some fields ->
  (exists picks, Forall2 gives nodes picks /\ fields = omap id picks) /\
  length fields <= length nodes /\
  Forall (fun f => exists tuple t rest,
                     Seq tuple (Atom t f :: rest) ∈ nodes /\
                     (t = 1%Z \/ f = JNum 0 \/ f = JNum 1)) fields.
Proof.
  intros Hx. split; [|by apply extractFields_members].
  revert fields Hx. induction nodes as [|node nodes IH]; intros fields Hx;
    cbn [DomainSelector.extractFields] in Hx.
  - injection Hx as <-. exists []. split; [constructor | done].
  - destruct (DomainSelector.first_field node) as [f|] eqn:Hf; [|done].
    destruct (DomainSelector.extractFields nodes) as [fs|]; [|done].
    injection Hx as <-. destruct (IH fs eq_refl) as (picks & Hall & ->).
    destruct (first_field_gives _ _ Hf) as (pick & Hpick & ->).
    exists (pick :: picks). split; [by constructor|]. by destruct pick.
Qed.

(** X6. In a domain whose nodes of type 4 and 10 are its sequences,
    [extractFieldsFromDomain] raises exactly when some list or tuple node
    is empty; the other nodes, such as the connectives, are passed over. *)
Theorem extractFields_fails_on_empty nodes :
  (forall t v, Atom t v ∈ nodes -> t <> 4%Z /\ t <> 10%Z) ->
  DomainSelector.extractFields nodes = None <->
  exists tuple, Seq tuple [] ∈ nodes.
Proof.
  induction nodes as [|node nodes IH]; intros Hatoms;
    cbn [DomainSelector.extractFields].
  - split; [done|]. by intros [tuple ?%elem_of_nil].
  - assert (IH' : DomainSelector.extractFields nodes = None <->
                  exists tuple, Seq tuple [] ∈ nodes).
    { apply IH. intros t v Hin. apply (Hatoms t v). by right. }
    destruct node as [t v|tuple l].
    + destruct (Hatoms t v) as [H4 H10]; [by left|].
      rewrite (first_field_atom _ _ H4 H10).
      destruct (DomainSelector.extractFields nodes) as [fs|].
      * split; [done|]. intros [tuple Hin].
        apply elem_of_cons in Hin as [Heq|Hin]; [discriminate Heq|].
        destruct IH' as [_ IH2]. discriminate (IH2 (ex_intro _ tuple Hin)).
      * split; [|done]. intros _. destruct IH' as [[tuple Hin] _]; [done|].
        exists tuple. by right.
    + rewrite first_field_seq. destruct l as [|first rest].
      * split; [|done]. intros _. exists tuple. by left.
      * assert (exists f, match first with
                          | Atom t v =>
                              Some (if (t =? 1)%Z || DomainSelector.is_0_or_1 v
                                    then [v] else [])
                          | Seq _ _ => Some []
                          end = Some f) as [f ->]
          by (destruct first; eauto).
        destruct (DomainSelector.extractFields nodes) as [fs|].
        -- split; [done|]. intros [tuple' Hin].
           apply elem_of_cons in Hin as [Heq|Hin]; [discriminate Heq|].
           destruct IH' as [_ IH2]. discriminate (IH2 (ex_intro _ tuple' Hin)).
        -- split; [|done]. intros _. destruct IH' as [[tuple' Hin] _]; [done|].
           exists tuple'. by right.
Qed.

(** ** Events of a computation *)

Lemma traceall_ret {A} phi (a : A) : TraceAll phi (ret a).
Proof. intros c tr o Hr. inversion Hr. constructor. Qed.

Lemma traceall_throw {A} phi : TraceAll phi (@throw A).
Proof. intros c tr o Hr. inversion Hr. constructor. Qed.

Lemma traceall_get phi : TraceAll phi get.
Proof. intros c tr o Hr. inversion Hr. constructor. Qed.

Lemma traceall_modify phi f : TraceAll phi (modify f).
Proof. intros c tr o Hr. inversion Hr. constructor. Qed.

Lemma traceall_or_throw {A} phi (x : option A) : TraceAll phi (or_throw x).
Proof. destruct x; [apply traceall_ret | apply traceall_throw]. Qed.

Lemma traceall_bind {A B} phi (m : M A) (f : A -> M B) :
  TraceAll phi m -> (forall a, TraceAll phi (f a)) -> TraceAll phi (bind m f).
Proof.
  intros Hm Hf c tr o Hr. unfold bind in Hr.
  apply Runs_bindE in Hr as [(tr1 & tr2 & [c1 a] & H1 & H2 & ->)|(x & H1 & ->)].
  - apply Forall_app. split; [by eapply Hm | by eapply Hf].
  - by eapply Hm.
Qed.

Lemma traceall_try {A} phi (m h : M A) :
  TraceAll phi m -> TraceAll phi h -> TraceAll phi (try m h).
Proof.
  intros Hm Hh c tr o Hr. unfold try in Hr.
  apply Runs_try_catch in Hr as [(r & H1 & ->)|(tr1 & tr2 & x & H1 & H2 & ->)].
  - by eapply Hm.
  - apply Forall_app. split; [by eapply Hm | by eapply Hh].
Qed.

Lemma traceall_loadPath (phi : event -> Prop) model path :
  (forall answer, phi (EvLoadPath model path answer)) ->
  TraceAll phi (DomainSelector.loadPath model path).
Proof.
  intros Hphi c tr o Hr. inversion Hr; subst.
  match goal with Hk : Runs (Ret _) _ _ |- _ => inversion Hk; subst end.
  by repeat constructor.
Qed.

Lemma traceall_update (phi : event -> Prop) text :
  phi (EvUpdate text) -> TraceAll phi (DomainSelector.update text).
Proof.
  intros Hphi c tr o Hr. inversion Hr; subst.
  match goal with Hk : Runs (Ret _) _ _ |- _ => inversion Hk; subst end.
  by repeat constructor.
Qed.

Ltac traces_step side :=
  first
    [ apply traceall_bind; [| intros ?]
    | apply traceall_try
    | apply traceall_ret | apply traceall_throw | apply traceall_get
    | apply traceall_modify | apply traceall_or_throw
    | apply traceall_loadPath; side
    | apply traceall_update; side
    | match goal with
      | |- TraceAll _ (match ?x with _ => _ end) => destruct x
      | |- TraceAll _ (if ?b then _ else _) => destruct b
      end
    | progress cbv zeta ].

Ltac traces side := repeat traces_step side.

(** ** The rebuild *)

Lemma loadFieldDef_asks_about model field :
  TraceAll (asks_about model) (DomainSelector.loadFieldDef model field).
Proof. unfold DomainSelector.loadFieldDef. traces ltac:(by intros). Qed.

Lemma traceall_settle phi : TraceAll phi DomainSelector.settle.
Proof.
  intros c tr o Hr. inversion Hr; subst.
  match goal with Hk : Runs (Ret _) _ _ |- _ => inversion Hk; subst end.
  constructor.
Qed.

Lemma promises_ask_about model fields :
  TraceAll (asks_about model) (DomainSelector.promises model fields).
Proof.
  induction fields as [|field rest IH]; cbn [DomainSelector.promises].
  - apply traceall_ret.
  - apply traceall_bind.
    + unfold DomainSelector.promise. apply traceall_try; [|apply traceall_ret].
      apply traceall_bind; [apply loadFieldDef_asks_about|].
      intros info. apply traceall_ret.
    + intros info. apply traceall_bind; [apply IH|]. intros others.
      apply traceall_ret.
Qed.

Lemma loadFieldDefs_ask_about model fields :
  TraceAll (asks_about model) (DomainSelector.loadFieldDefs model fields).
Proof.
  unfold DomainSelector.loadFieldDefs.
  apply traceall_bind; [apply promises_ask_about|]. intros results.
  apply traceall_bind; [apply traceall_or_throw|]. intros entries.
  apply traceall_bind; [apply traceall_settle|]. intros order.
  apply traceall_ret.
Qed.

Lemma build_no_event phi domain defs :
  TraceAll phi (DomainSelector.build domain defs).
Proof. unfold DomainSelector.build. traces idtac. Qed.

Lemma rebuild_asks_about p :
  TraceAll (asks_about (resModel p)) (DomainSelector.rebuild p).
Proof.
  unfold DomainSelector.rebuild, DomainSelector.extractFieldsFromDomain,
    DomainSelector.first_child, DomainSelector.read.
  repeat first
    [ apply loadFieldDefs_ask_about
    | apply build_no_event
    | traces_step idtac ].
Qed.

(** X7. Rebuilding the tree never notifies the owner: every event of
    [onPropsUpdated(p)], however it ends, is a question to the field
    service about the model [p.resModel]. *)
Theorem onPropsUpdated_only_asks p c tr o :
  Runs (DomainSelector.onPropsUpdated p c) tr o ->
  Forall (asks_about (resModel p)) tr.
Proof.
  revert c tr o. change (TraceAll (asks_about (resModel p))
                           (DomainSelector.onPropsUpdated p)).
  unfold DomainSelector.onPropsUpdated. apply traceall_try.
  - apply rebuild_asks_about.
  - unfold DomainSelector.fallback.
    repeat first [ apply build_no_event | traces_step idtac ].
Qed.

Lemma hoare_keeps_bind {A B} (I : Component -> Prop) (m : M A) (f : A -> M B)
    (Q : Component -> B -> Prop) (E : Component -> Prop) :
  Keeps I m -> (forall c, I c -> E c) -> (forall a, Hoare I (f a) Q E) ->
  Hoare I (bind m f) Q E.
Proof.
  intros Hm HE Hf. eapply hoare_bind; [|exact Hf].
  eapply hoare_conseq; [exact Hm | done | done | exact HE].
Qed.

Lemma keeps_loadFieldDefs I model fields :
  Keeps I (DomainSelector.loadFieldDefs model fields).
Proof.
  intros c tr o Hc Hr.
  destruct (loadFieldDefs_run _ _ _ _ _ Hr) as (Hst & _). rewrite <- Hst in Hc.
  by destruct o as [[c' defs]|x].
Qed.

Lemma keeps_build (I : Component -> Prop) domain defs :
  (forall s c, I c -> I (with_store s c)) ->
  Keeps I (DomainSelector.build domain defs).
Proof.
  intros HI. unfold DomainSelector.build. keeps ltac:(intros ? ?; by apply HI).
Qed.

Lemma keeps_first_child I n : Keeps I (DomainSelector.first_child n).
Proof.
  unfold DomainSelector.first_child, DomainSelector.read. keeps idtac.
Qed.

Lemma onPropsUpdated_post p c tr c' :
  Runs (DomainSelector.onPropsUpdated p c) tr (Returned (c', tt)) ->
  is_Some (tree_root c') /\ props c' = props c /\
  (tree_isSupported c' = false -> defaultLeaf c' = defaultLeaf c).
Proof.
  set (J := fun x : Component =>
              props x = props c /\ defaultLeaf x = defaultLeaf c).
  set (J' := fun x : Component => J x /\ is_Some (tree_root x)).
  assert (HJs : forall s x, J x -> J (with_store s x)) by (by intros s x Hx).
  assert (HJ's : forall s x, J' x -> J' (with_store s x)) by (by intros s x Hx).
  assert (Hbody : Hoare J (DomainSelector.rebuild p)
                    (fun x _ => is_Some (tree_root x) /\ props x = props c /\
                                tree_isSupported x = true) J).
  { unfold DomainSelector.rebuild, DomainSelector.extractFieldsFromDomain.
    apply hoare_keeps_bind; [apply keeps_or_throw | done | intros domain].
    apply hoare_keeps_bind; [apply keeps_or_throw | done | intros _].
    apply hoare_keeps_bind; [apply keeps_or_throw | done | intros fields].
    apply hoare_keeps_bind; [apply keeps_loadFieldDefs | done | intros defs].
    apply hoare_keeps_bind; [by apply keeps_build | done | intros root].
    eapply (hoare_bind _ _ _ (fun x _ => J' x)).
    { apply hoare_modify. intros x Hx. split; [exact Hx | by eexists]. }
    intros _. eapply hoare_conseq with (P' := J') (E' := J');
      [| done | intros x a Hx; exact Hx | by intros x [Hx _]].
    apply hoare_keeps_bind; [apply keeps_or_throw | done | intros leafDomain].
    apply hoare_keeps_bind; [apply keeps_loadFieldDefs | done | intros leafDefs].
    apply hoare_keeps_bind; [by apply keeps_build | done | intros leafRoot].
    apply hoare_keeps_bind; [apply keeps_first_child | done | intros leaf].
    eapply (hoare_bind _ _ _ (fun x _ => props x = props c /\
                                          is_Some (tree_root x))).
    { apply hoare_modify. by intros x [[Hp _] Hr]. }
    intros _. apply hoare_modify. by intros x [Hp Hr]. }
  assert (Hcatch : Hoare J DomainSelector.fallback
                     (fun x _ => is_Some (tree_root x) /\ props x = props c /\
                                 defaultLeaf x = defaultLeaf c)
                     (fun _ => True)).
  { unfold DomainSelector.fallback.
    eapply (hoare_bind _ _ _ (fun x _ => J x)).
    { apply hoare_modify. by intros x Hx. }
    intros _.
    eapply (hoare_bind _ _ _ (fun x _ => J x)).
    { by apply hoare_or_throw. }
    intros emptyDomain.
    eapply (hoare_bind _ _ _ (fun x _ => J x)).
    { eapply hoare_conseq; [by apply (keeps_build J) | done | done | done]. }
    intros root. apply hoare_modify. intros x [Hp Hd]. split; [by eexists|done]. }
  intros Hr.
  assert (Hall : Hoare J (DomainSelector.onPropsUpdated p)
                   (fun x _ => is_Some (tree_root x) /\ props x = props c /\
                               (tree_isSupported x = false ->
                                defaultLeaf x = defaultLeaf c))
                   (fun _ => True)).
  { unfold DomainSelector.onPropsUpdated. eapply hoare_try.
    - eapply hoare_conseq; [exact Hbody | done | | intros x Hx; exact Hx].
      intros x _ (Hroot & Hp & Hs). split; [done|]. split; [done|]. congruence.
    - eapply hoare_conseq; [exact Hcatch | done | | done].
      intros x _ (Hroot & Hp & Hd). done. }
  exact (Hall c tr _ (conj eq_refl eq_refl) Hr).
Qed.

(** X8. When [onPropsUpdated(p)] returns, the tree has a root, and the
    props of the component are the ones it had.  When it returns with the
    tree marked as not supported, the default leaf is the one from before
    the call: a failed rebuild does not reset it. *)
Theorem onPropsUpdated_leaves_root p c tr c' :
  Runs (DomainSelector.onPropsUpdated p c) tr (Returned (c', tt)) ->
  is_Some (tree_root c') /\ props c' = props c /\
  (tree_isSupported c' = false -> defaultLeaf c' = defaultLeaf c).
Proof. apply onPropsUpdated_post. Qed.

(** ** What the mutations leave alone *)

Lemma keeps_read I n : Keeps I (DomainSelector.read n).
Proof. unfold DomainSelector.read. keeps idtac. Qed.

Lemma keeps_read_leaf I n : Keeps I (DomainSelector.read_leaf n).
Proof.
  unfold DomainSelector.read_leaf.
  apply keeps_bind; [apply keeps_read|]. intros o. keeps idtac.
Qed.

Lemma keeps_write I n o : store_blind I -> Keeps I (DomainSelector.write n o).
Proof.
  intros HI. unfold DomainSelector.write. apply keeps_modify.
  intros c Hc. by apply HI.
Qed.

Lemma keeps_on_store I f : store_blind I -> Keeps I (DomainSelector.on_store f).
Proof.
  intros HI. unfold DomainSelector.on_store.
  keeps ltac:(intros ? ?; by apply HI).
Qed.

Lemma keeps_createNewLeaf I : store_blind I -> Keeps I DomainSelector.createNewLeaf.
Proof.
  intros HI. unfold DomainSelector.createNewLeaf.
  keeps ltac:(intros ? ?; by apply HI).
Qed.

Lemma keeps_createNewBranch I operator :
  store_blind I -> Keeps I (DomainSelector.createNewBranch operator).
Proof.
  intros HI. unfold DomainSelector.createNewBranch.
  apply keeps_bind; [by apply keeps_createNewLeaf|]. intros first.
  apply keeps_bind; [by apply keeps_createNewLeaf|]. intros second.
  keeps ltac:(intros ? ?; by apply HI).
Qed.

Lemma keeps_notifyChanges I : Keeps I DomainSelector.notifyChanges.
Proof. unfold DomainSelector.notifyChanges. keeps idtac. Qed.

(** The steps of a mutation, one after the other. *)
Ltac mutation_keeps HI :=
  repeat first
    [ apply keeps_notifyChanges
    | apply keeps_loadFieldDef
    | apply keeps_read_leaf
    | apply keeps_read
    | apply keeps_write; exact HI
    | apply keeps_on_store; exact HI
    | apply keeps_createNewLeaf; exact HI
    | apply keeps_createNewBranch; exact HI
    | keeps_step idtac ].

Lemma perform_keeps I mu : store_blind I -> Keeps I (DomainSelector.perform mu).
Proof.
  intros HI.
  destruct mu; cbn [DomainSelector.perform];
    unfold DomainSelector.insertRootLeaf, DomainSelector.insertLeaf,
      DomainSelector.insertBranch, DomainSelector.delete,
      DomainSelector.updateBranchOperator, DomainSelector.updateField,
      DomainSelector.updateLeafOperator, DomainSelector.updateLeafValue;
    mutation_keeps HI.
Qed.

Lemma same_frame_blind c0 : store_blind (same_frame c0).
Proof. by intros s c Hc. Qed.

Lemma same_frame_refl c : same_frame c c.
Proof. by repeat split. Qed.

(** X9. No mutation touches anything but the store of node objects:
    however it ends, the props, the root of the tree, the flag
    [isSupported] and the default leaf are the ones from before. *)
Theorem mutations_keep_frame mu c tr o :
  Runs (DomainSelector.perform mu c) tr o ->
  same_frame c (state_of o).
Proof.
  intros Hr.
  pose proof (perform_keeps (same_frame c) mu (same_frame_blind c) c tr o
                (same_frame_refl c) Hr) as Hk.
  by destruct o as [[c' []]|x].
Qed.

Lemma root_none_blind : store_blind (fun c => tree_root c = None).
Proof. by intros s c Hc. Qed.

Lemma perform_without_root mu c tr o :
  tree_root c = None ->
  Runs (DomainSelector.perform mu c) tr o ->
  (exists x, o = Thrown x) /\ quiet tr.
Proof.
  intros Hroot Hr.
  pose proof (perform_keeps _ mu root_none_blind c tr o Hroot Hr) as Hk.
  pose proof (perform_ends_notifying mu c tr o Hr) as Hn.
  destruct o as [[c' []]|x]; cbn [fst] in Hk.
  - destruct Hn as (tr0 & root & text & _ & _ & Hsome & _). congruence.
  - split; [by eexists | exact Hn].
Qed.

(** X10. On a component as [setup] leaves it, before any rebuild, every
    mutation raises and nothing is notified: the tree has no root to
    serialize. *)
Theorem mutations_raise_after_setup p st mu tr o :
  Runs (DomainSelector.perform mu (setup p st)) tr o ->
  (exists x, o = Thrown x) /\ quiet tr.
Proof. by apply perform_without_root. Qed.

Lemma insert_without_default_leaf mu c :
  inserts mu = true -> defaultLeaf c = None ->
  DomainSelector.perform mu c = Throw c.
Proof.
  intros Hmu Hd. destruct mu; try discriminate Hmu; cbn [DomainSelector.perform].
  - unfold DomainSelector.insertRootLeaf, DomainSelector.createNewLeaf, bind, get.
    cbn [bindE fst snd]. by rewrite Hd.
  - unfold DomainSelector.insertLeaf, DomainSelector.createNewLeaf, bind, get.
    cbn [bindE fst snd]. by rewrite Hd.
  - unfold DomainSelector.insertBranch, DomainSelector.read. unfold bind at 1.
    unfold bind at 1. cbn [get bindE fst snd].
    destruct (heap (store c) !! parent) as [o|];
      cbn [or_throw ret throw bindE fst snd]; [|done].
    unfold DomainSelector.createNewBranch, DomainSelector.createNewLeaf, bind, get.
    cbn [bindE fst snd]. by rewrite Hd.
Qed.

(** X11. After [setup], a rebuild that ends with the tree marked as not
    supported leaves the component without a default leaf, and the three
    operations that insert a new leaf or branch then raise at once,
    leaving the state as it is and notifying nothing. *)
Theorem insert_after_failed_start p0 st p mu tr c' :
  inserts mu = true ->
  Runs (DomainSelector.onPropsUpdated p (setup p0 st)) tr (Returned (c', tt)) ->
  tree_isSupported c' = false ->
  defaultLeaf c' = None /\ DomainSelector.perform mu c' = Throw c'.
Proof.
  intros Hmu Hr Hflag.
  destruct (onPropsUpdated_post _ _ _ _ Hr) as (_ & _ & Hd).
  specialize (Hd Hflag). cbn [setup defaultLeaf] in Hd.
  split; [done|]. by apply insert_without_default_leaf.
Qed.

Lemma keeps_write_same_but node o c0 :
  Keeps (same_but node c0) (DomainSelector.write node o).
Proof.
  unfold DomainSelector.write. apply keeps_modify.
  intros c [Hid Hheap]. split; [done|]. intros k Hk.
  cbn [with_store store set_obj heap]. rewrite lookup_insert_ne by done.
  by apply Hheap.
Qed.

Lemma same_but_refl node c : same_but node c c.
Proof. by split. Qed.

(** X12. The four operations that rewrite the attributes of a node,
    [updateBranchOperator], [updateField], [updateLeafOperator] and
    [updateLeafValue], touch no other object: however they end, every
    other object of the store is as before, and no id has been handed
    out. *)
Theorem rewrite_touches_one_node mu node c tr o :
  rewrites mu = Some node ->
  Runs (DomainSelector.perform mu c) tr o ->
  same_but node c (state_of o).
Proof.
  intros Hmu Hr.
  assert (Hk : Keeps (same_but node c) (DomainSelector.perform mu)).
  { destruct mu; try discriminate Hmu; injection Hmu as ->;
      cbn [DomainSelector.perform];
      unfold DomainSelector.updateBranchOperator, DomainSelector.updateField,
        DomainSelector.updateLeafOperator, DomainSelector.updateLeafValue;
      repeat first
        [ apply keeps_notifyChanges
        | apply keeps_loadFieldDef
        | apply keeps_read_leaf
        | apply keeps_read
        | apply keeps_write_same_but
        | keeps_step idtac ]. }
  pose proof (Hk c tr o (same_but_refl node c) Hr) as Hs.
  by destruct o as [[c' []]|x].
Qed.

(** ** Failures of the leaf mutations *)

Lemma notifyChanges_run c tr o :
  Runs (DomainSelector.notifyChanges c) tr o ->
  state_of o = c /\ length tr <= 1.
Proof.
  intros Hr. split.
  - pose proof (keeps_notifyChanges (fun x => x = c) c tr o eq_refl Hr) as Hk.
    by destruct o as [[c' []]|x].
  - unfold DomainSelector.notifyChanges, DomainSelector.update, bind, get in Hr.
    cbn [bindE fst snd] in Hr.
    destruct (tree_root c) as [root|];
      cbn [or_throw ret throw bindE fst snd] in Hr; [|inversion Hr; simpl; lia].
    destruct (toDomainString (store c) root) as [text|];
      cbn [or_throw ret throw bindE fst snd] in Hr; [|inversion Hr; simpl; lia].
    inversion Hr; subst.
    match goal with Hk : Runs (Ret _) _ _ |- _ => inversion Hk; subst end.
    simpl. lia.
Qed.

(** X13. When the field given to [updateField] does not resolve to a
    descriptor ([loadFieldDef] gives [null] or [undefined]), the method
    raises without notifying, after it has overwritten the field of the
    leaf with [{ name: field }], a descriptor without a type; the operator
    and the value of the leaf stay. *)
Theorem updateField_unresolved c node l field r tr1 :
  heap (store c) !! node = Some (Leaf l) ->
  Runs (DomainSelector.loadFieldDef (resModel (props c)) field c) tr1
       (Returned (c, r)) ->
  (forall fd, r <> FDObj fd) ->
  forall tr2 o,
    Runs (DomainSelector.updateField node field c) (tr1 ++ tr2) o <->
    tr2 = [] /\
    o = Thrown
          (with_obj node
             (Leaf {| leaf_field := {| fd_type := None; fd_name := Some field;
                                       fd_attrs := ∅ |};
                      leaf_operator := leaf_operator l;
                      leaf_value := leaf_value l |}) c).
Proof.
  intros Hl Hload Hr tr2 o. rewrite updateField_eq.
  match goal with |- context [bindE _ ?k] => set (K := k) end.
  assert (Hk : K (c, r) =
               Throw (with_obj node
                        (Leaf {| leaf_field := {| fd_type := None;
                                                  fd_name := Some field;
                                                  fd_attrs := ∅ |};
                                 leaf_operator := leaf_operator l;
                                 leaf_value := leaf_value l |}) c)).
  { subst K. cbn beta. cbn [fst snd]. unfold bind at 1.
    rewrite (read_leaf_eq _ _ _ Hl).
    cbn [bindE fst snd]. unfold bind at 1. rewrite write_eq.
    cbn [bindE fst snd]. destruct r as [fd| |]; [by destruct (Hr fd)| |]; done. }
  split.
  - intros Hrun. pose proof (Runs_bindE_prefix _ K _ _ _ _ (plain_loadFieldDef _ _ _) Hload Hrun) as Hthrow.
    rewrite Hk in Hthrow. by inversion Hthrow.
  - intros [-> ->]. apply (Runs_bindE_intro _ K _ _ _ _ Hload).
    rewrite Hk. constructor.
Qed.

(** ** When changing the operator fails *)

Lemma migrate_single_to_multiple previous next field v :
  mode_single previous -> mode_multiple next ->
  DomainSelector.migrate previous next field v = Some (JArr [v]).
Proof. intros Hp Hn. apply migrate_table. by apply single_to_multiple. Qed.

Lemma migrate_multiple_to_single previous next field v :
  previous <> Some "none" -> mode_single next ->
  DomainSelector.migrate previous next field v = Js.index0 v.
Proof.
  intros Hp [Hn1 Hn2]. unfold DomainSelector.migrate.
  by rewrite !decide_False by done.
Qed.

Lemma modes_differ single multi :
  mode_single single -> mode_multiple multi -> single <> multi.
Proof. intros [_ Hs] Hm ->. by apply Hs. Qed.

Lemma updateLeafOperator_raised c node l key tr x :
  heap (store c) !! node = Some (Leaf l) ->
  Runs (DomainSelector.updateLeafOperator node key c) tr (Thrown x) ->
  tr = [] /\
  ((findOperator key = None /\ x = c) \/
   (exists next v, findOperator key = Some next /\
                   x = with_obj node (Leaf (leaf_with l (Some next) v)) c)).
Proof.
  intros Hl Hr.
  destruct (findOperator key) as [next|] eqn:Hf.
  - assert (Hnotify : forall c1 v,
               c1 = with_obj node (Leaf (leaf_with l (Some next) v)) c ->
               Runs (DomainSelector.notifyChanges c1) tr (Thrown x) ->
               tr = [] /\ x = c1).
    { intros c1 v -> Hn. destruct (notifyChanges_run _ _ _ Hn) as [Hst _].
      split; [|done].
      pose proof (ends_notifyChanges _ _ _ Hn) as Hq. cbn in Hq.
      unfold DomainSelector.notifyChanges, DomainSelector.update, bind, get in Hn.
      cbn [bindE fst snd] in Hn.
      destruct (tree_root _) as [root|];
        cbn [or_throw ret throw bindE fst snd] in Hn; [|by inversion Hn].
      destruct (toDomainString _ root) as [text|];
        cbn [or_throw ret throw bindE fst snd] in Hn; [|by inversion Hn].
      inversion Hn; subst.
      match goal with Hk : Runs (Ret _) _ _ |- _ => inversion Hk end. }
    destruct (leaf_operator l) as [previous|] eqn:Hp.
    + rewrite (updateLeafOperator_eq _ _ _ _ _ _ Hl Hp Hf) in Hr.
      destruct (decide _) as [Hne|He].
      * destruct (DomainSelector.migrate _ _ _ _) as [v|].
        -- destruct (Hnotify _ v eq_refl Hr) as [-> ->]. split; [done|].
           right. by exists next, v.
        -- inversion Hr; subst. split; [done|]. right.
           by exists next, (leaf_value l).
      * destruct (Hnotify _ (leaf_value l) eq_refl Hr) as [-> ->]. split; [done|].
        right. by exists next, (leaf_value l).
    + unfold DomainSelector.updateLeafOperator in Hr. unfold bind at 1 in Hr.
      rewrite (read_leaf_eq _ _ _ Hl) in Hr. cbn [bindE snd fst] in Hr.
      rewrite Hf, Hp in Hr. unfold bind at 1 in Hr.
      cbn [or_throw ret bindE snd fst] in Hr.
      unfold bind at 1 in Hr. rewrite write_eq in Hr. cbn [bindE snd fst] in Hr.
      unfold bind at 1 in Hr. cbn [or_throw throw bindE snd fst] in Hr.
      inversion Hr; subst. split; [done|]. right.
      by exists next, (leaf_value l).
  - unfold DomainSelector.updateLeafOperator in Hr. unfold bind at 1 in Hr.
    rewrite (read_leaf_eq _ _ _ Hl) in Hr. cbn [bindE snd fst] in Hr.
    rewrite Hf in Hr. unfold bind at 1 in Hr.
    cbn [or_throw throw bindE snd fst] in Hr.
    inversion Hr; subst. split; [done|]. by left.
Qed.

Lemma updateLeafOperator_unknown_key c node l key :
  heap (store c) !! node = Some (Leaf l) -> findOperator key = None ->
  DomainSelector.updateLeafOperator node key c = Throw c.
Proof.
  intros Hl Hf. unfold DomainSelector.updateLeafOperator. unfold bind at 1.
  rewrite (read_leaf_eq _ _ _ Hl). cbn [bindE snd fst]. by rewrite Hf.
Qed.

Lemma updateLeafOperator_no_previous c node l key next :
  heap (store c) !! node = Some (Leaf l) -> findOperator key = Some next ->
  leaf_operator l = None ->
  DomainSelector.updateLeafOperator node key c =
    Throw (with_obj node (Leaf (leaf_with l (Some next) (leaf_value l))) c).
Proof.
  intros Hl Hf Hp. unfold DomainSelector.updateLeafOperator. unfold bind at 1.
  rewrite (read_leaf_eq _ _ _ Hl). cbn [bindE snd fst].
  rewrite Hf, Hp. unfold bind at 1. cbn [or_throw ret bindE snd fst].
  unfold bind at 1. by rewrite write_eq.
Qed.

(** X14. [updateLeafOperator] does not roll back.  On a leaf, an unknown
    operator key makes it raise with the state untouched.  A leaf without
    an operator, and [value[0]] on a value that is [null] or [undefined]
    (the change is to a single-valued mode, from another mode than
    ["none"]), make it raise after the new operator has been written to the
    leaf, which stays there with the old value.  And whenever the method
    raises, these or a failing serialization being the cause, the owner
    has not been notified and the state is the one it started from, or
    that state with the new operator, and possibly the new value, in the
    leaf. *)
Theorem updateLeafOperator_no_rollback c node l key :
  heap (store c) !! node = Some (Leaf l) ->
  (findOperator key = None ->
   DomainSelector.updateLeafOperator node key c = Throw c) /\
  (forall next,
     findOperator key = Some next ->
     leaf_operator l = None \/
     (exists previous,
        leaf_operator l = Some previous /\
        op_valueMode previous <> op_valueMode next /\
        op_valueMode previous <> Some "none" /\ mode_single (op_valueMode next) /\
        (leaf_value l = JNull \/ leaf_value l = JUndefined)) ->
     DomainSelector.updateLeafOperator node key c =
       Throw (with_obj node (Leaf (leaf_with l (Some next) (leaf_value l))) c)) /\
  (forall tr x,
     Runs (DomainSelector.updateLeafOperator node key c) tr (Thrown x) ->
     tr = [] /\
     ((findOperator key = None /\ x = c) \/
      (exists next v, findOperator key = Some next /\
                      x = with_obj node (Leaf (leaf_with l (Some next) v)) c))).
Proof.
  intros Hl. split; [|split].
  - intros Hf. exact (updateLeafOperator_unknown_key _ _ _ _ Hl Hf).
  - intros next Hf [Hp|(previous & Hp & Hne & Hnone & Hsingle & Hv)].
    + exact (updateLeafOperator_no_previous _ _ _ _ _ Hl Hf Hp).
    + rewrite (updateLeafOperator_eq _ _ _ _ _ _ Hl Hp Hf).
      rewrite decide_True by done.
      rewrite (migrate_multiple_to_single _ _ _ _ Hnone Hsingle).
      by destruct Hv as [-> | ->].
  - intros tr x Hr. exact (updateLeafOperator_raised _ _ _ _ _ _ Hl Hr).
Qed.

(** ** Changing the operator back and forth *)

(** X15. Changing the operator of a leaf from a single-valued one to one
    of mode ["multiple"] and back to a single-valued one gives the leaf its
    value back: [v] becomes [[v]], then [v] again. *)
Theorem single_multiple_single c node l single key_m multi key_s single' :
  heap (store c) !! node = Some (Leaf l) ->
  leaf_operator l = Some single ->
  mode_single (op_valueMode single) ->
  findOperator key_m = Some multi -> mode_multiple (op_valueMode multi) ->
  findOperator key_s = Some single' -> mode_single (op_valueMode single') ->
  let c1 := with_obj node (Leaf (leaf_with l (Some multi) (JArr [leaf_value l]))) c in
  let c2 := with_obj node (Leaf (leaf_with l (Some single') (leaf_value l))) c in
  DomainSelector.updateLeafOperator node key_m c = DomainSelector.notifyChanges c1 /\
  DomainSelector.updateLeafOperator node key_s c1 = DomainSelector.notifyChanges c2.
Proof.
  intros Hl Hp Hs Hfm Hm Hfs Hs' c1 c2. split.
  - rewrite (updateLeafOperator_eq _ _ _ _ _ _ Hl Hp Hfm).
    rewrite decide_True by (by apply modes_differ).
    by rewrite migrate_single_to_multiple.
  - assert (Hl1 : heap (store c1) !! node =
                  Some (Leaf (leaf_with l (Some multi) (JArr [leaf_value l]))))
      by (subst c1; cbn; by rewrite lookup_insert_eq).
    rewrite (updateLeafOperator_eq _ _ _ _ _ _ Hl1 eq_refl Hfs).
    rewrite decide_True by (apply not_eq_sym; by apply modes_differ).
    rewrite migrate_multiple_to_single; [|by rewrite Hm|done].
    cbn [leaf_with leaf_value leaf_field Js.index0]. subst c1 c2.
    by rewrite with_obj_twice.
Qed.

(** X16. The other way round loses values: from mode ["multiple"] to a
    single-valued operator and back, a list [first :: others] becomes
    [first], then [[first]]. *)
Theorem multiple_single_multiple c node l multi key_s single key_m multi' first others :
  heap (store c) !! node = Some (Leaf l) ->
  leaf_operator l = Some multi ->
  mode_multiple (op_valueMode multi) ->
  leaf_value l = JArr (first :: others) ->
  findOperator key_s = Some single -> mode_single (op_valueMode single) ->
  findOperator key_m = Some multi' -> mode_multiple (op_valueMode multi') ->
  let c1 := with_obj node (Leaf (leaf_with l (Some single) first)) c in
  let c2 := with_obj node (Leaf (leaf_with l (Some multi') (JArr [first]))) c in
  DomainSelector.updateLeafOperator node key_s c = DomainSelector.notifyChanges c1 /\
  DomainSelector.updateLeafOperator node key_m c1 = DomainSelector.notifyChanges c2.
Proof.
  intros Hl Hp Hm Hv Hfs Hs Hfm Hm' c1 c2. split.
  - rewrite (updateLeafOperator_eq _ _ _ _ _ _ Hl Hp Hfs).
    rewrite decide_True by (apply not_eq_sym; by apply modes_differ).
    rewrite migrate_multiple_to_single; [|by rewrite Hm|done].
    by rewrite Hv.
  - assert (Hl1 : heap (store c1) !! node =
                  Some (Leaf (leaf_with l (Some single) first)))
      by (subst c1; cbn; by rewrite lookup_insert_eq).
    rewrite (updateLeafOperator_eq _ _ _ _ _ _ Hl1 eq_refl Hfm).
    rewrite decide_True by (by apply modes_differ).
    rewrite migrate_single_to_multiple by done.
    cbn [leaf_with leaf_value leaf_field]. subst c1 c2.
    by rewrite with_obj_twice.
Qed.

(** X17. The test of [updateLeafOperator] compares the [valueMode]s
    themselves, not their classes: between two single-valued operators
    whose [valueMode]s differ (one absent, say, and one ["single"]), the
    value is migrated as from a list, to [value[0]]: the first character
    of a string, [undefined] for a number or a boolean, and an exception
    for [null], the new operator being already in place. *)
Theorem single_modes_that_differ c node l previous key next :
  heap (store c) !! node = Some (Leaf l) ->
  leaf_operator l = Some previous ->
  findOperator key = Some next ->
  mode_single (op_valueMode previous) -> mode_single (op_valueMode next) ->
  op_valueMode previous <> op_valueMode next ->
  DomainSelector.updateLeafOperator node key c =
    match Js.index0 (leaf_value l) with
    | Some v =>
        DomainSelector.notifyChanges
          (with_obj node (Leaf (leaf_with l (Some next) v)) c)
    | None =>
        Throw (with_obj node (Leaf (leaf_with l (Some next) (leaf_value l))) c)
    end.
Proof.
  intros Hl Hp Hf [Hp1 _] Hn Hne.
  rewrite (updateLeafOperator_eq _ _ _ _ _ _ Hl Hp Hf).
  rewrite decide_True by done.
  by rewrite migrate_multiple_to_single.
Qed.

(** ** The operators offered, again *)

Lemma NoDup_snoc {A} (l : list A) (x : A) :
  NoDup l -> x ∉ l -> NoDup (l ++ [x]).
Proof.
  intros Hl Hx. apply NoDup_app. split; [done|]. split.
  - intros y Hy ->%list_elem_of_singleton. by apply Hx.
  - apply NoDup_singleton.
Qed.

(** X18. For a leaf with an operator, the list [getOperatorsInfo(node)]
    offers begins with the operators registered for the type of its field,
    in their order, and has at most one more.  It has no two operators
    with the same key, provided the registered ones have none. *)
Theorem getOperatorsInfo_extends_registered (l : LeafNode) (current : Operator) :
  leaf_operator l = Some current ->
  let registered := getOperatorsInfo (fd_type (leaf_field l)) in
  exists offered : list Operator,
    DomainSelector.getOperatorsInfo l = Some (Some <$> offered) /\
    registered `prefix_of` offered /\
    length offered <= S (length registered) /\
    (NoDup (op_key <$> registered) -> NoDup (op_key <$> offered)).
Proof.
  intros Hc registered. unfold DomainSelector.getOperatorsInfo.
  fold registered. rewrite (some_same_key_spec _ _ _ Hc).
  destruct (decide (op_key current ∈ op_key <$> registered)) as [Hin|Hout].
  - rewrite bool_decide_eq_true_2 by done. exists registered.
    split; [done|]. split; [done|]. split; [lia | done].
  - rewrite bool_decide_eq_false_2 by done. rewrite Hc.
    exists (registered ++ [current])%list. split; [|split; [|split]].
    + by rewrite fmap_app.
    + by apply prefix_app_r.
    + rewrite length_app. cbn [length]. lia.
    + intros Hnd. rewrite fmap_app. by apply NoDup_snoc.
Qed.

(** ** Inserting leaves *)

(** The state after a clone of the leaf [l] has got the id [new] and
    the children of the branch [b] at [parent] have become [children]. *)
Lemma insertLeaf_eq c parent node b leaf l :
  Store_wf (store c) ->
  heap (store c) !! parent = Some (Branch b) ->
  defaultLeaf c = Some leaf ->
  heap (store c) !! leaf = Some (Leaf l) ->
  DomainSelector.insertLeaf parent node c =
    DomainSelector.notifyChanges
      (with_store
         {| heap :=
              <[parent := Branch {| branch_operator := branch_operator b;
                                    branch_children :=
                                      Nodes.insert_after node (nextId (store c))
                                        (branch_children b) |}]>
                (<[nextId (store c) := Leaf l]> (heap (store c)));
            nextId := N.succ (nextId (store c)) |} c).
Proof.
  intros Hwf Hp Hd Hl.
  pose proof (wf_old _ _ _ Hwf Hp) as Hparent.
  unfold DomainSelector.insertLeaf. unfold bind at 1.
  rewrite (createNewLeaf_eq _ _ _ Hd Hl). cbn [bindE fst snd].
  unfold bind, get, modify, ret, DomainSelector.on_store.
  cbn [bindE fst snd]. unfold Nodes.insertAfter. cbn.
  rewrite lookup_insert_ne by lia. by rewrite Hp.
Qed.

Lemma insertRootLeaf_eq c parent b leaf l :
  Store_wf (store c) ->
  heap (store c) !! parent = Some (Branch b) ->
  defaultLeaf c = Some leaf ->
  heap (store c) !! leaf = Some (Leaf l) ->
  DomainSelector.insertRootLeaf parent c =
    DomainSelector.notifyChanges
      (with_store
         {| heap :=
              <[parent := Branch {| branch_operator := branch_operator b;
                                    branch_children :=
                                      (branch_children b ++ [nextId (store c)])%list |}]>
                (<[nextId (store c) := Leaf l]> (heap (store c)));
            nextId := N.succ (nextId (store c)) |} c).
Proof.
  intros Hwf Hp Hd Hl.
  pose proof (wf_old _ _ _ Hwf Hp) as Hparent.
  unfold DomainSelector.insertRootLeaf. unfold bind at 1.
  rewrite (createNewLeaf_eq _ _ _ Hd Hl). cbn [bindE fst snd].
  unfold bind, get, modify, ret, DomainSelector.on_store.
  cbn [bindE fst snd]. unfold Nodes.add. cbn.
  rewrite lookup_insert_ne by lia. by rewrite Hp.
Qed.

Lemma insert_after_absent sibling node l :
  sibling ∉ l -> Nodes.insert_after sibling node l = l.
Proof.
  intros Hs. induction l as [|y l IH]; [done|]. simpl.
  apply not_elem_of_cons in Hs as [Hne Hs].
  destruct (N.eqb_spec y sibling) as [->|_]; [done|]. by rewrite IH.
Qed.

(** X19. On a branch [parent], [insertLeaf(parent, node)] clones the
    default leaf under the next free id and puts the clone into the
    children of [parent] right after [node]; it then notifies from that
    state.  When [node] is not a child of [parent], the children stay as
    they are: the clone exists but hangs nowhere. *)
Theorem insertLeaf_inserts c parent node b leaf l :
  Store_wf (store c) ->
  heap (store c) !! parent = Some (Branch b) ->
  defaultLeaf c = Some leaf ->
  heap (store c) !! leaf = Some (Leaf l) ->
  let new := nextId (store c) in
  let children' := Nodes.insert_after node new (branch_children b) in
  let c' :=
    with_store
      {| heap :=
           <[parent := Branch {| branch_operator := branch_operator b;
                                 branch_children := children' |}]>
             (<[new := Leaf l]> (heap (store c)));
         nextId := N.succ new |} c in
  DomainSelector.insertLeaf parent node c = DomainSelector.notifyChanges c' /\
  heap (store c) !! new = None /\
  heap (store c') !! new = Some (Leaf l) /\
  (forall before after,
      branch_children b = (before ++ node :: after)%list -> node ∉ before ->
      children' = (before ++ node :: new :: after)%list) /\
  (node ∉ branch_children b -> children' = branch_children b).
Proof.
  intros Hwf Hp Hd Hl new children' c'.
  pose proof (wf_old _ _ _ Hwf Hp) as Hparent.
  split; [exact (insertLeaf_eq _ _ _ _ _ _ Hwf Hp Hd Hl)|].
  split; [apply wf_fresh; [done | lia]|].
  split; [|split].
  - subst c'. cbn. rewrite lookup_insert_ne by (unfold new; lia).
    by rewrite lookup_insert_eq.
  - intros before after Hb Hnot. subst children'. rewrite Hb.
    by apply insert_after_spec.
  - intros Hnot. by apply insert_after_absent.
Qed.

(** X20. On a branch [parent], [insertRootLeaf(parent)] puts a clone of
    the default leaf at the end of the children of [parent]; this is what
    [insertLeaf(parent, node)] does when [node] is the last child of
    [parent]. *)
Theorem insertRootLeaf_appends c parent b leaf l :
  Store_wf (store c) ->
  heap (store c) !! parent = Some (Branch b) ->
  defaultLeaf c = Some leaf ->
  heap (store c) !! leaf = Some (Leaf l) ->
  let new := nextId (store c) in
  let c' :=
    with_store
      {| heap :=
           <[parent := Branch {| branch_operator := branch_operator b;
                                 branch_children :=
                                   (branch_children b ++ [new])%list |}]>
             (<[new := Leaf l]> (heap (store c)));
         nextId := N.succ new |} c in
  DomainSelector.insertRootLeaf parent c = DomainSelector.notifyChanges c' /\
  forall before last,
    branch_children b = (before ++ [last])%list -> last ∉ before ->
    DomainSelector.insertLeaf parent last c =
      DomainSelector.insertRootLeaf parent c.
Proof.
  intros Hwf Hp Hd Hl new c'.
  split; [exact (insertRootLeaf_eq _ _ _ _ _ Hwf Hp Hd Hl)|].
  intros before last Hb Hnot.
  rewrite (insertLeaf_eq _ _ _ _ _ _ Hwf Hp Hd Hl).
  rewrite (insertRootLeaf_eq _ _ _ _ _ Hwf Hp Hd Hl).
  rewrite Hb, (insert_after_spec _ _ _ [] Hnot). by rewrite <- app_assoc.
Qed.

Lemma insertBranch_eq c parent node b leaf l :
  Store_wf (store c) ->
  heap (store c) !! parent = Some (Branch b) ->
  defaultLeaf c = Some leaf ->
  heap (store c) !! leaf = Some (Leaf l) ->
  let first := nextId (store c) in
  let second := N.succ first in
  let branch := N.succ second in
  DomainSelector.insertBranch parent node c =
    DomainSelector.notifyChanges
      (with_store
         {| heap :=
              <[parent := Branch {| branch_operator := branch_operator b;
                                    branch_children :=
                                      Nodes.insert_after node branch
                                        (branch_children b) |}]>
                (<[branch := Branch {| branch_operator :=
                                         if String.eqb (branch_operator b) "AND"
                                         then "OR" else "AND";
                                       branch_children := [first; second] |}]>
                   (<[second := Leaf l]> (<[first := Leaf l]> (heap (store c)))));
            nextId := N.succ branch |} c).
Proof.
  intros Hwf Hp Hd Hl first second branch.
  pose proof (wf_old _ _ _ Hwf Hp) as Hparent.
  pose proof (wf_old _ _ _ Hwf Hl) as Hleaf.
  assert (Hne : parent <> first /\ parent <> second /\ parent <> branch /\
                leaf <> first)
    by (unfold branch, second, first; lia).
  destruct Hne as (Hn1 & Hn2 & Hn3 & Hn4).
  unfold DomainSelector.insertBranch. unfold bind at 1.
  rewrite (read_eq _ _ _ Hp). cbn [bindE fst snd].
  unfold bind at 1. unfold DomainSelector.createNewBranch.
  unfold bind at 1. rewrite (createNewLeaf_eq _ _ _ Hd Hl).
  cbn [bindE fst snd]. unfold bind at 1.
  erewrite createNewLeaf_eq; [|exact Hd|].
  2:{ cbn. rewrite lookup_insert_ne by done. exact Hl. }
  cbn [bindE fst snd]. unfold bind, get, modify, ret, DomainSelector.on_store.
  cbn [bindE fst snd]. unfold Nodes.insertAfter. cbn.
  rewrite !lookup_insert_ne by done. rewrite Hp. reflexivity.
Qed.

Lemma wf_grow (heap0 : gmap N Obj) (n m : N) :
  (n <= m)%N ->
  map_Forall (fun k _ => (k < n)%N) heap0 ->
  map_Forall (fun k _ => (k < m)%N) heap0.
Proof.
  intros Hle Hwf. eapply map_Forall_impl; [exact Hwf|]. cbn beta.
  intros k _ Hk. lia.
Qed.

(** X21. Inserting keeps the store in order.  On a branch [parent], with a
    default leaf that is a leaf, each of [insertRootLeaf], [insertLeaf] and
    [insertBranch] leaves, however it ends, a store whose ids are all below
    the next id, in which every object but [parent] is as before (the
    default leaf among them: the new leaves are copies, not the default
    leaf itself) and [parent] is still a branch with its operator. *)
Theorem inserts_keep_store mu c parent b leaf l tr o :
  inserts_into mu = Some parent ->
  Store_wf (store c) ->
  heap (store c) !! parent = Some (Branch b) ->
  defaultLeaf c = Some leaf ->
  heap (store c) !! leaf = Some (Leaf l) ->
  Runs (DomainSelector.perform mu c) tr o ->
  Store_wf (store (state_of o)) /\
  extends_but parent c (state_of o) /\
  defaultLeaf (state_of o) = Some leaf /\
  heap (store (state_of o)) !! leaf = Some (Leaf l) /\
  exists b', heap (store (state_of o)) !! parent = Some (Branch b') /\
             branch_operator b' = branch_operator b.
Proof.
  intros Hmu Hwf Hp Hd Hl Hr.
  pose proof (wf_old _ _ _ Hwf Hp) as Hparent.
  pose proof (wf_old _ _ _ Hwf Hl) as Hleaf.
  assert (Hfresh : forall k o', heap (store c) !! k = Some o' ->
                                (k < nextId (store c))%N)
    by (intros k o' Hk; by eapply wf_old).
  destruct mu; try discriminate Hmu; injection Hmu as ->;
    cbn [DomainSelector.perform] in Hr.
  - rewrite (insertRootLeaf_eq _ _ _ _ _ Hwf Hp Hd Hl) in Hr.
    destruct (notifyChanges_run _ _ _ Hr) as [-> _].
    cbn [with_store store heap nextId defaultLeaf].
    split; [|split; [|split; [done|split]]].
    + unfold Store_wf. cbn [heap nextId].
      apply map_Forall_insert_2; [lia|]. apply map_Forall_insert_2; [lia|].
      eapply wf_grow; [|exact Hwf]. lia.
    + split; [cbn; lia|]. intros k o' Hk Ho'. cbn.
      rewrite lookup_insert_ne by done.
      rewrite lookup_insert_ne by (specialize (Hfresh _ _ Ho'); lia). done.
    + rewrite lookup_insert_ne by (intros ->; congruence).
      rewrite lookup_insert_ne by lia. done.
    + eexists. rewrite lookup_insert_eq. by split.
  - rewrite (insertLeaf_eq _ _ _ _ _ _ Hwf Hp Hd Hl) in Hr.
    destruct (notifyChanges_run _ _ _ Hr) as [-> _].
    cbn [with_store store heap nextId defaultLeaf].
    split; [|split; [|split; [done|split]]].
    + unfold Store_wf. cbn [heap nextId].
      apply map_Forall_insert_2; [lia|]. apply map_Forall_insert_2; [lia|].
      eapply wf_grow; [|exact Hwf]. lia.
    + split; [cbn; lia|]. intros k o' Hk Ho'. cbn.
      rewrite lookup_insert_ne by done.
      rewrite lookup_insert_ne by (specialize (Hfresh _ _ Ho'); lia). done.
    + rewrite lookup_insert_ne by (intros ->; congruence).
      rewrite lookup_insert_ne by lia. done.
    + eexists. rewrite lookup_insert_eq. by split.
  - rewrite (insertBranch_eq _ _ _ _ _ _ Hwf Hp Hd Hl) in Hr.
    destruct (notifyChanges_run _ _ _ Hr) as [-> _].
    cbn [with_store store heap nextId defaultLeaf].
    split; [|split; [|split; [done|split]]].
    + unfold Store_wf. cbn [heap nextId].
      repeat (apply map_Forall_insert_2; [lia|]).
      eapply wf_grow; [|exact Hwf]. lia.
    + split; [cbn; lia|]. intros k o' Hk Ho'. cbn.
      rewrite lookup_insert_ne by done.
      rewrite !lookup_insert_ne by (specialize (Hfresh _ _ Ho'); lia). done.
    + rewrite lookup_insert_ne by (intros ->; congruence).
      rewrite !lookup_insert_ne by lia. done.
    + eexists. rewrite lookup_insert_eq. by split.
Qed.

(** ** The mutations and the field service *)

Lemma asked_of_updates tr :
  Forall (fun e => is_update e = true) tr -> asked tr = [].
Proof.
  induction 1 as [|e tr He _ IH]; [done|].
  destruct e; [discriminate He|]. exact IH.
Qed.

Lemma notifyChanges_updates :
  TraceAll (fun e => is_update e = true) DomainSelector.notifyChanges.
Proof. unfold DomainSelector.notifyChanges. traces ltac:(done). Qed.

Ltac only_updates :=
  unfold DomainSelector.insertRootLeaf, DomainSelector.insertLeaf,
    DomainSelector.insertBranch, DomainSelector.delete,
    DomainSelector.updateBranchOperator, DomainSelector.updateLeafOperator,
    DomainSelector.updateLeafValue, DomainSelector.createNewBranch,
    DomainSelector.createNewLeaf, DomainSelector.on_store,
    DomainSelector.read_leaf, DomainSelector.read, DomainSelector.write;
  repeat first [ apply notifyChanges_updates | traces_step ltac:(done) ].

Lemma perform_only_updates mu :
  (forall node field, mu <> DomainSelector.UpdateField node field) ->
  TraceAll (fun e => is_update e = true) (DomainSelector.perform mu).
Proof.
  intros Hmu. destruct mu; cbn [DomainSelector.perform];
    try (by destruct (Hmu node field)); only_updates.
Qed.

(** X22. Of the mutation operations only [updateField] asks the field
    service, and it asks at most once, for the model [props.resModel] and
    the path it was given; the others produce no event but the
    notification. *)
Theorem mutations_ask_little mu c tr o :
  Runs (DomainSelector.perform mu c) tr o ->
  match mu with
  | DomainSelector.UpdateField _ field =>
      asked tr = [] \/
      exists path, field = JStr path /\ path <> "" /\
                   asked tr = [(resModel (props c), path)]
  | _ => asked tr = []
  end.
Proof.
  intros Hr.
  destruct mu;
    try (pose proof (fun Hmu => perform_only_updates _ Hmu c tr o Hr) as Hu;
         apply asked_of_updates, Hu; intros ? ?; discriminate).
  cbn [DomainSelector.perform] in Hr.
  rewrite updateField_eq in Hr.
  apply Runs_bindE in Hr as [(tr1 & tr2 & [c1 r] & H1 & H2 & ->)|(x & H1 & ->)].
  - destruct (loadFieldDef_run _ _ _ _ _ H1) as (_ & _ & Hasked).
    assert (Hrest : asked tr2 = []).
    { apply asked_of_updates. revert H2. cbn [fst snd].
      generalize c1 tr2 o.
      match goal with
      | |- forall c tr o, Runs (?m c) tr o -> _ =>
          change (TraceAll (fun e => is_update e = true) m)
      end.
      unfold DomainSelector.read_leaf, DomainSelector.read, DomainSelector.write.
      repeat first [ apply notifyChanges_updates | traces_step ltac:(done) ]. }
    rewrite asked_app, Hrest, app_nil_r. exact Hasked.
  - by destruct (loadFieldDef_run _ _ _ _ _ H1) as (_ & _ & Hasked).
Qed.

(** ** Choosing the operator a leaf has *)

Lemma with_obj_same n o c :
  heap (store c) !! n = Some o -> with_obj n o c = c.
Proof.
  intros Hn. destruct c as [p [h i] s r d]. unfold with_obj, with_store.
  cbn in *. by rewrite insert_id.
Qed.

(** X23. Choosing for a leaf the operator it already has changes nothing
    in the state: [updateLeafOperator] only notifies. *)
Theorem updateLeafOperator_same_operator c node l key current :
  heap (store c) !! node = Some (Leaf l) ->
  leaf_operator l = Some current ->
  findOperator key = Some current ->
  DomainSelector.updateLeafOperator node key c = DomainSelector.notifyChanges c.
Proof.
  intros Hl Hp Hf. rewrite (updateLeafOperator_eq _ _ _ _ _ _ Hl Hp Hf).
  rewrite decide_False by (intros Hne; by apply Hne).
  rewrite with_obj_same; [done|]. rewrite Hl. do 2 f_equal.
  destruct l. unfold leaf_with. cbn in *. by rewrite Hp.
Qed.

(** ** The class of the root element *)

Lemma trimEnd_blank s : blank s = true -> trimEnd s = "".
Proof.
  induction s as [|a s IH]; [done|]. cbn [blank trimEnd].
  intros [Ha Hs]%andb_true_iff. by rewrite (IH Hs), Ha.
Qed.

Lemma trimEnd_solid a s :
  is_space a = false -> trimEnd (String a s) = String a (trimEnd s).
Proof. intros Ha. cbn [trimEnd]. destruct (trimEnd s); by rewrite ?Ha. Qed.

Lemma trimEnd_idem s : trimEnd (trimEnd s) = trimEnd s.
Proof.
  induction s as [|a s IH]; [done|]. cbn [trimEnd].
  destruct (trimEnd s) as [|b t] eqn:Hs.
  - destruct (is_space a) eqn:Ha; [done|]. cbn [trimEnd]. by rewrite Ha.
  - cbn [trimEnd] in *. rewrite IH. done.
Qed.

Lemma mode_class_solid readonly t :
  trimEnd (mode_class readonly +:+ t) = mode_class readonly +:+ trimEnd t /\
  trimStart (mode_class readonly +:+ t) = mode_class readonly +:+ t.
Proof.
  assert (Hcons : forall a s u, String a s +:+ u = String a (s +:+ u)) by done.
  assert (Hnil : forall u, "" +:+ u = u) by done.
  destruct readonly; cbn [mode_class]; split; try reflexivity;
    rewrite !Hcons, Hnil; by rewrite !trimEnd_solid.
Qed.

(** X24. The class name the getter [className] computes begins with
    [o_read_mode] when the component is read-only and with [o_edit_mode]
    otherwise, and has no white space at either end.  With an empty or
    blank [props.className] it is that mode class alone; with none it is
    the mode class followed by [" undefined"]. *)
Theorem className_shape readonly name :
  (exists rest, className readonly name = mode_class readonly +:+ rest) /\
  trim (className readonly name) = className readonly name /\
  (forall s, name = Some s -> blank s = true ->
             className readonly name = mode_class readonly) /\
  (name = None -> className readonly name = mode_class readonly +:+ " undefined").
Proof.
  unfold className, trim.
  destruct (mode_class_solid readonly (" " +:+ default "undefined" name))
    as [Hend Hstart].
  rewrite Hstart, Hend. split; [by eexists|]. split; [|split].
  - destruct (mode_class_solid readonly (trimEnd (" " +:+ default "undefined" name)))
      as [Hend' Hstart'].
    by rewrite Hstart', Hend', trimEnd_idem.
  - intros s -> Hs. cbn [default from_option id].
    rewrite trimEnd_blank; [by destruct readonly|].
    assert (Hsp : " " +:+ s = String (Ascii.ascii_of_nat 32) s) by done.
    rewrite Hsp. cbn [blank]. by rewrite Hs.
  - by intros ->.
Qed.

(** ** The mutations on the inputs of the interface *)







End Further.

(** * The properties at work on the sample instance *)

#[local] Existing Instance Sample.imports.

(** Proves that a computation runs as stated by running it against the
    sample service. *)
Ltac run_sample :=
  match goal with
  | |- Runs ?m _ _ =>
      let Hr := fresh "Hr" in
      let r := fresh "r" in
      let Er := fresh "Er" in
      pose proof (run_Runs Sample.service m) as Hr;
      remember (run Sample.service m) as r eqn:Er;
      vm_compute in Er; subst r; exact Hr
  end.

Example includes_01 :
  Js.includes "01" "" = true /\ Js.includes "01" "0" = true /\
  Js.includes "01" "1" = true /\ Js.includes "01" "01" = true /\
  Js.includes "01" "10" = false /\ Js.includes "01" "id" = false.
Proof. repeat split; reflexivity. Qed.

Example started_c0 : Sample.started "[('age', '=', 10)]" = Sample.c0.
Proof. vm_compute. reflexivity. Qed.

Example to_string_samples :
  Js.to_string (JNum 0) = "0" /\ Js.to_string (JNum (-12)) = "-12" /\
  Js.to_string (JArr [JNum 1; JNull; JStr "a"]) = "1,,a" /\
  Js.to_string (JArr []) = "".
Proof. repeat split; vm_compute; reflexivity. Qed.

(** The scenarios of the specification for a change of operator. *)
Example scenario_equal_to_in :
  Sample.value_at_1
    (Sample.after (DomainSelector.UpdateLeafOperator 1 "in")
       (Sample.one_leaf (Sample.leaf Sample.age Sample.eq_op (JNum 10))))
  = Some (JArr [JNum 10]).
Proof. vm_compute. reflexivity. Qed.

Example scenario_in_to_equal :
  Sample.value_at_1
    (Sample.after (DomainSelector.UpdateLeafOperator 1 "=")
       (Sample.one_leaf (Sample.leaf Sample.age Sample.in_op
                           (JArr [JNum 10; JNum 20]))))
  = Some (JNum 10).
Proof. vm_compute. reflexivity. Qed.

Example scenario_equal_to_set :
  Sample.value_at_1
    (Sample.after (DomainSelector.UpdateLeafOperator 1 "set")
       (Sample.one_leaf (Sample.leaf Sample.active Sample.eq_op (JBool true))))
  = Some (JBool false).
Proof. vm_compute. reflexivity. Qed.

Lemma updateLeafOperator_migrates_witness :
  exists c',
    DomainSelector.updateLeafOperator 1 "in" Sample.c0 =
      DomainSelector.notifyChanges c' /\
    heap (store c') !! 1%N =
      Some (Leaf (Sample.leaf Sample.age Sample.in_op (JArr [JNum 10]))).
Proof.
  destruct (updateLeafOperator_migrates Sample.c0 1
              (Sample.leaf Sample.age Sample.eq_op (JNum 10))
              Sample.eq_op "in" Sample.in_op (JArr [JNum 10]))
    as (c' & Hrun & _ & Hleaf).
  - vm_compute. reflexivity.
  - reflexivity.
  - reflexivity.
  - discriminate.
  - apply single_to_multiple.
    + split; discriminate.
    + reflexivity.
  - exists c'. split; [exact Hrun | exact Hleaf].
Defined.

(** C2, on the code.  From the leaf [age = 10], the operator goes to
    ["set"], then to ["in"], which makes the value the empty list, then
    back to ["="]: the value is then [undefined], where the field's
    default value is [1]. *)
Theorem empty_list_to_single_is_undefined :
  let c1 := Sample.after (DomainSelector.UpdateLeafOperator 1 "set") Sample.c0 in
  let c2 := Sample.after (DomainSelector.UpdateLeafOperator 1 "in") c1 in
  let c3 := Sample.after (DomainSelector.UpdateLeafOperator 1 "=") c2 in
  Sample.value_at_1 c2 = Some (JArr []) /\
  Sample.value_at_1 c3 = Some JUndefined /\
  getDefaultFieldValue Sample.age = JNum 1.
Proof. vm_compute. repeat split; reflexivity. Qed.

Lemma same_mode_keeps_value_witness :
  DomainSelector.updateLeafOperator 1 "!=" Sample.c0 =
    DomainSelector.notifyChanges
      (with_obj 1 (Leaf (Sample.leaf Sample.age Sample.ne_op (JNum 10))) Sample.c0) /\
  DomainSelector.updateLeafValue 1 (JArr [JStr "x"]) Sample.c0 =
    DomainSelector.notifyChanges
      (with_obj 1 (Leaf (Sample.leaf Sample.age Sample.eq_op (JArr [JStr "x"])))
         Sample.c0).
Proof.
  destruct (same_mode_keeps_value Sample.c0 1
              (Sample.leaf Sample.age Sample.eq_op (JNum 10)) (JArr [JStr "x"]))
    as [Hop Hval].
  - vm_compute. reflexivity.
  - split; [|exact Hval].
    apply (Hop Sample.eq_op "!=" Sample.ne_op); reflexivity.
Defined.

Lemma getOperatorsInfo_keeps_current_witness :
  DomainSelector.getOperatorsInfo
    (Sample.leaf Sample.age Sample.ilike_op (JStr "4")) =
  Some [Some Sample.eq_op; Some Sample.ne_op; Some Sample.in_op;
        Some Sample.set_op; Some Sample.ilike_op].
Proof.
  destruct (getOperatorsInfo_keeps_current
              (Sample.leaf Sample.age Sample.ilike_op (JStr "4")) Sample.ilike_op)
    as (offered & Hret & _ & Hout & _).
  - reflexivity.
  - rewrite Hret, Hout; [reflexivity|].
    intros Hin. vm_compute in Hin.
    repeat (apply elem_of_cons in Hin as [Hin|Hin]; [discriminate Hin|]).
    by apply elem_of_nil in Hin.
Defined.

Lemma updateField_resets_witness :
  Runs (DomainSelector.updateField 1 (JStr "active") Sample.c0)
       ([EvLoadPath "res.partner" "active"
           (Some {| isInvalid := false; names := ["active"];
                    modelsInfo := [{| fieldDefs := Sample.partner_fields |}] |})]
        ++ [EvUpdate "AND[(active = true)]"])
       (Returned
          (with_obj 1 (Leaf (Sample.leaf Sample.active Sample.eq_op (JBool true)))
             Sample.c0, tt)).
Proof.
  assert (Hleaf : heap (store Sample.c0) !! 1%N =
                  Some (Leaf (Sample.leaf Sample.age Sample.eq_op (JNum 10))))
    by (vm_compute; reflexivity).
  assert (Hload : Runs (DomainSelector.loadFieldDef (resModel (props Sample.c0))
                          (JStr "active") Sample.c0)
                       [EvLoadPath "res.partner" "active"
                          (Some {| isInvalid := false; names := ["active"];
                                   modelsInfo :=
                                     [{| fieldDefs := Sample.partner_fields |}] |})]
                       (Returned (Sample.c0,
                                  FDObj {| fd_type := Some "boolean";
                                           fd_name := None; fd_attrs := ∅ |})))
    by run_sample.
  apply (updateField_resets Sample.c0 1 _ (JStr "active") _ _ Hleaf Hload).
  run_sample.
Defined.

Lemma insertBranch_inserts_witness :
  exists c',
    DomainSelector.insertBranch 2 1 Sample.c0 = DomainSelector.notifyChanges c' /\
    heap (store c') !! 2%N =
      Some (Branch {| branch_operator := "AND"; branch_children := [1; 7]%N |}) /\
    heap (store c') !! 7%N =
      Some (Branch {| branch_operator := "OR"; branch_children := [5; 6]%N |}) /\
    heap (store c') !! 5%N = Some (Leaf (Sample.leaf Sample.age Sample.eq_op (JNum 1))) /\
    heap (store c') !! 6%N = Some (Leaf (Sample.leaf Sample.age Sample.eq_op (JNum 1))).
Proof.
  destruct (insertBranch_inserts Sample.c0 2 1
              {| branch_operator := "AND"; branch_children := [1%N] |} 3
              (Sample.leaf Sample.age Sample.eq_op (JNum 1)))
    as (Hrun & _ & (Hb & H1 & H2) & _).
  - refine (bool_decide_unpack _ _). vm_compute. exact I.
  - vm_compute. reflexivity.
  - reflexivity.
  - vm_compute. reflexivity.
  - eexists. split; [exact Hrun|]. split; [|split; [exact Hb|split; [exact H1|exact H2]]].
    vm_compute. reflexivity.
Defined.

Lemma onPropsUpdated_falls_back_witness :
  exists c',
    Runs (DomainSelector.onPropsUpdated (Sample.the_props "[('nope', '=', 10)]")
            (Sample.fresh "[('nope', '=', 10)]"))
         [EvLoadPath "res.partner" "nope"
            (Some {| isInvalid := true; names := []; modelsInfo := [] |})]
         (Returned (c', tt)) /\
    tree_isSupported c' = false /\ is_Some (tree_root c').
Proof.
  destruct (onPropsUpdated_falls_back (Sample.the_props "[('nope', '=', 10)]")
              (Sample.fresh "[('nope', '=', 10)]")) as [Hcaught _].
  - intros st. exists {| ast_value := [] |}. split; [reflexivity|].
    simpl. eauto.
  - destruct (Hcaught
                [EvLoadPath "res.partner" "nope"
                   (Some {| isInvalid := true; names := []; modelsInfo := [] |})]
                (Sample.fresh "[('nope', '=', 10)]"))
      as (c' & Hrun & d & root & _ & _ & Hsup & Hroot & _).
    + run_sample.
    + exists c'. split; [exact Hrun|]. split; [exact Hsup|]. rewrite Hroot. eauto.
Defined.

(** The fallback at work: a field the service does not know, and a text
    that does not parse, both leave an empty root and a tree marked as not
    supported. *)
Example fallback_runs :
  let unresolved := Sample.started "[('nope', '=', 10)]" in
  let unparsed := Sample.started "age = 10" in
  (tree_isSupported unresolved = false /\ tree_root unresolved = Some 1%N /\
   heap (store unresolved) !! 1%N =
     Some (Branch {| branch_operator := "AND"; branch_children := [] |})) /\
  (tree_isSupported unparsed = false /\ tree_root unparsed = Some 1%N /\
   heap (store unparsed) !! 1%N =
     Some (Branch {| branch_operator := "AND"; branch_children := [] |})) /\
  tree_isSupported Sample.c0 = true.
Proof. vm_compute. repeat split; reflexivity. Qed.


(** The order in which the answers come in shows when a field is there
    twice and the service changes its answer in between: the same calls
    and the same answers leave either entry. *)
Example answers_settle_in_any_order :
  let m := DomainSelector.loadFieldDefs "res.partner" [JStr "age"; JStr "age"]
             Sample.c0 in
  let tr := [EvLoadPath "res.partner" "age" (SampleMore.known "age");
             EvLoadPath "res.partner" "age" SampleMore.unknown] in
  Runs m tr (Returned (Sample.c0, {[ "age" := FDNull ]})) /\
  Runs m tr (Returned (Sample.c0, {[ "age" := FDObj integer_field ]})).
Proof.
  split.
  - vm_compute. constructor. vm_compute. constructor. vm_compute.
    apply (runs_settle _ []). vm_compute. constructor.
  - vm_compute. constructor. vm_compute. constructor. vm_compute.
    apply (runs_settle _ [1%nat]). vm_compute. constructor.
Qed.

(** The component whose first text, [age = 10], is not one the parser
    takes has fallen back: a root without children, and no default leaf. *)
Example started_unparsed :
  Sample.started "age = 10" = SampleMore.fallen "age = 10".
Proof. vm_compute. reflexivity. Qed.


(** Each mutation, on an input of the kind the template gives it, returns
    after one notification. *)
Example mutations_complete :
  let trace mu c := (run Sample.service (DomainSelector.perform mu c)).1 in
  trace (DomainSelector.InsertRootLeaf 2) Sample.c0
    = [EvUpdate "AND[(age = 10)(age = 1)]"] /\
  trace (DomainSelector.InsertLeaf 2 1) Sample.c0
    = [EvUpdate "AND[(age = 10)(age = 1)]"] /\
  trace (DomainSelector.InsertBranch 2 1) Sample.c0
    = [EvUpdate "AND[(age = 10)OR[(age = 1)(age = 1)]]"] /\
  trace (DomainSelector.Delete 2 1) Sample.c0 = [EvUpdate "AND[]"] /\
  trace (DomainSelector.UpdateBranchOperator 2 "OR") Sample.c0
    = [EvUpdate "OR[(age = 10)]"] /\
  trace (DomainSelector.UpdateLeafOperator 1 "in") Sample.c0
    = [EvUpdate "AND[(age in 10)]"] /\
  trace (DomainSelector.UpdateLeafValue 1 (JNum 3)) Sample.c0
    = [EvUpdate "AND[(age = 3)]"].
Proof. vm_compute. repeat split; reflexivity. Qed.

Lemma loadFieldDef_empty_string_witness :
  DomainSelector.loadFieldDef "res.partner" (JStr "") Sample.c0 =
    Ret (Sample.c0, FDObj integer_field) /\
  exists answer tr',
    [EvLoadPath "res.partner" "nope"
       (Some {| isInvalid := true; names := []; modelsInfo := [] |})] =
    EvLoadPath "res.partner" "nope" answer :: tr'.
Proof.
  destruct (loadFieldDef_empty_string "res.partner" Sample.c0) as [Hempty Hnull].
  split; [exact Hempty|].
  apply (Hnull "nope" _ Sample.c0). run_sample.
Defined.

(** ** The further properties at work *)

Lemma loadFieldDef_shorthand_exactly_witness :
  DomainSelector.loadFieldDef "res.partner" (JArr [JNum 0]) Sample.c0 =
    Ret (Sample.c0, FDObj integer_field).
Proof.
  apply (loadFieldDef_shorthand_exactly "res.partner" (JArr [JNum 0]) Sample.c0 "0");
    [reflexivity|].
  unfold shorthands. by repeat constructor.
Defined.

Lemma loadFieldDef_reads_only_witness :
  let tr := [EvLoadPath "res.partner" "age" (SampleMore.known "age")] in
  let o := Returned (Sample.c0,
                     FDObj {| fd_type := Some "integer"; fd_name := None;
                              fd_attrs := ∅ |}) in
  Runs (DomainSelector.loadFieldDef "res.partner" (JStr "age") Sample.c0) tr o /\
  state_of o = Sample.c0 /\ quiet tr /\
  (asked tr = [] \/
   exists path, JStr "age" = JStr path /\ path <> "" /\
                asked tr = [("res.partner", path)]).
Proof.
  intros tr o.
  assert (Hr : Runs (DomainSelector.loadFieldDef "res.partner" (JStr "age") Sample.c0)
                    tr o) by run_sample.
  split; [exact Hr|]. exact (loadFieldDef_reads_only _ _ _ _ _ Hr).
Defined.


Lemma loadFieldDefs_asks_witness :
  let tr := [EvLoadPath "res.partner" "age" (SampleMore.known "age")] in
  Runs (DomainSelector.loadFieldDefs "res.partner" [JNull; JStr "age"; JNum 1]
          Sample.c0) tr (Thrown Sample.c0) /\
  quiet tr /\ asked tr = [("res.partner", "age")].
Proof.
  intros tr.
  assert (Hr : Runs (DomainSelector.loadFieldDefs "res.partner"
                       [JNull; JStr "age"; JNum 1] Sample.c0) tr
                    (Thrown Sample.c0)) by run_sample.
  split; [exact Hr|].
  destruct (loadFieldDefs_asks _ _ _ _ _ Hr) as (_ & Hq & Hasked).
  split; [exact Hq | exact Hasked].
Defined.

Lemma extractFields_sound_witness :
  DomainSelector.extractFields SampleMore.nodes = Some [JStr "age"; JNum 1] /\
  exists picks,
    Forall2 gives SampleMore.nodes picks /\ [JStr "age"; JNum 1] = omap id picks.
Proof.
  split; [reflexivity|].
  exact (proj1 (extractFields_sound SampleMore.nodes [JStr "age"; JNum 1] eq_refl)).
Defined.

Lemma extractFields_fails_on_empty_witness :
  DomainSelector.extractFields [Atom 1 (JStr "|"); Seq true []] = None.
Proof.
  apply (extractFields_fails_on_empty [Atom 1 (JStr "|"); Seq true []]).
  - intros t v Hin. apply elem_of_cons in Hin as [[= -> _]|Hin]; [done|].
    apply elem_of_cons in Hin as [Heq|Hin]; [discriminate Heq|].
    by apply elem_of_nil in Hin.
  - exists true. by repeat constructor.
Defined.

Lemma onPropsUpdated_only_asks_witness :
  let tr := [EvLoadPath "res.partner" "nope" SampleMore.unknown] in
  Runs (DomainSelector.onPropsUpdated (Sample.the_props "[('nope', '=', 10)]")
          (Sample.fresh "[('nope', '=', 10)]")) tr
       (Returned (SampleMore.fallen "[('nope', '=', 10)]", tt)) /\
  Forall (asks_about "res.partner") tr.
Proof.
  intros tr.
  assert (Hr : Runs (DomainSelector.onPropsUpdated
                       (Sample.the_props "[('nope', '=', 10)]")
                       (Sample.fresh "[('nope', '=', 10)]")) tr
                    (Returned (SampleMore.fallen "[('nope', '=', 10)]", tt)))
    by run_sample.
  split; [exact Hr|]. exact (onPropsUpdated_only_asks _ _ _ _ Hr).
Defined.

Lemma onPropsUpdated_leaves_root_witness :
  let c' := SampleMore.fallen "[('nope', '=', 10)]" in
  Runs (DomainSelector.onPropsUpdated (Sample.the_props "[('nope', '=', 10)]")
          (Sample.fresh "[('nope', '=', 10)]"))
       [EvLoadPath "res.partner" "nope" SampleMore.unknown]
       (Returned (c', tt)) /\
  is_Some (tree_root c') /\
  props c' = props (Sample.fresh "[('nope', '=', 10)]") /\
  (tree_isSupported c' = false ->
   defaultLeaf c' = defaultLeaf (Sample.fresh "[('nope', '=', 10)]")).
Proof.
  intros c'.
  assert (Hr : Runs (DomainSelector.onPropsUpdated
                       (Sample.the_props "[('nope', '=', 10)]")
                       (Sample.fresh "[('nope', '=', 10)]"))
                    [EvLoadPath "res.partner" "nope" SampleMore.unknown]
                    (Returned (c', tt)))
    by run_sample.
  split; [exact Hr|]. exact (onPropsUpdated_leaves_root _ _ _ _ Hr).
Defined.

Lemma mutations_keep_frame_witness :
  let c' := SampleMore.c0_with
              (Leaf (Sample.leaf Sample.age Sample.eq_op (JNum 3))) in
  Runs (DomainSelector.perform (DomainSelector.UpdateLeafValue 1 (JNum 3)) Sample.c0)
       [EvUpdate "AND[(age = 3)]"] (Returned (c', tt)) /\
  same_frame Sample.c0 c'.
Proof.
  intros c'.
  assert (Hr : Runs (DomainSelector.perform
                       (DomainSelector.UpdateLeafValue 1 (JNum 3)) Sample.c0)
                    [EvUpdate "AND[(age = 3)]"] (Returned (c', tt)))
    by run_sample.
  split; [exact Hr|]. exact (mutations_keep_frame _ _ _ _ Hr).
Defined.

Lemma mutations_raise_after_setup_witness :
  let c := setup (Sample.the_props "") (store Sample.c0) in
  let x := with_obj 1 (Leaf (Sample.leaf Sample.age Sample.eq_op (JNum 3))) c in
  Runs (DomainSelector.perform (DomainSelector.UpdateLeafValue 1 (JNum 3)) c)
       [] (Thrown x) /\
  (exists y, @Thrown Component (Component * unit) x = Thrown y) /\ quiet [].
Proof.
  intros c x.
  assert (Hr : Runs (DomainSelector.perform
                       (DomainSelector.UpdateLeafValue 1 (JNum 3)) c)
                    [] (Thrown x)) by run_sample.
  split; [exact Hr|].
  exact (mutations_raise_after_setup _ _ _ _ _ Hr).
Defined.

Lemma insert_after_failed_start_witness :
  let c' := SampleMore.fallen "[('nope', '=', 10)]" in
  Runs (DomainSelector.onPropsUpdated (Sample.the_props "[('nope', '=', 10)]")
          (setup (Sample.the_props "[('nope', '=', 10)]")
             {| heap := ∅; nextId := 1 |}))
       [EvLoadPath "res.partner" "nope" SampleMore.unknown]
       (Returned (c', tt)) /\
  defaultLeaf c' = None /\
  DomainSelector.perform (DomainSelector.InsertRootLeaf 1) c' = Throw c'.
Proof.
  intros c'.
  assert (Hr : Runs (DomainSelector.onPropsUpdated
                       (Sample.the_props "[('nope', '=', 10)]")
                       (setup (Sample.the_props "[('nope', '=', 10)]")
                          {| heap := ∅; nextId := 1 |}))
                    [EvLoadPath "res.partner" "nope" SampleMore.unknown]
                    (Returned (c', tt)))
    by run_sample.
  split; [exact Hr|].
  exact (insert_after_failed_start _ _ _ (DomainSelector.InsertRootLeaf 1) _ _
           eq_refl Hr eq_refl).
Defined.

Lemma rewrite_touches_one_node_witness :
  let c' := SampleMore.c0_with
              (Leaf (Sample.leaf Sample.age Sample.eq_op (JNum 3))) in
  Runs (DomainSelector.perform (DomainSelector.UpdateLeafValue 1 (JNum 3)) Sample.c0)
       [EvUpdate "AND[(age = 3)]"] (Returned (c', tt)) /\
  same_but 1 Sample.c0 c'.
Proof.
  intros c'.
  assert (Hr : Runs (DomainSelector.perform
                       (DomainSelector.UpdateLeafValue 1 (JNum 3)) Sample.c0)
                    [EvUpdate "AND[(age = 3)]"] (Returned (c', tt)))
    by run_sample.
  split; [exact Hr|].
  exact (rewrite_touches_one_node (DomainSelector.UpdateLeafValue 1 (JNum 3)) 1
           _ _ _ eq_refl Hr).
Defined.

Lemma updateField_unresolved_witness :
  Runs (DomainSelector.updateField 1 (JStr "nope") Sample.c0)
       ([EvLoadPath "res.partner" "nope" SampleMore.unknown] ++ [])
       (Thrown
          (with_obj 1
             (Leaf {| leaf_field := {| fd_type := None;
                                       fd_name := Some (JStr "nope");
                                       fd_attrs := ∅ |};
                      leaf_operator := Some Sample.eq_op;
                      leaf_value := JNum 10 |}) Sample.c0)).
Proof.
  assert (Hleaf : heap (store Sample.c0) !! 1%N =
                  Some (Leaf (Sample.leaf Sample.age Sample.eq_op (JNum 10))))
    by (vm_compute; reflexivity).
  assert (Hload : Runs (DomainSelector.loadFieldDef (resModel (props Sample.c0))
                          (JStr "nope") Sample.c0)
                       [EvLoadPath "res.partner" "nope" SampleMore.unknown]
                       (Returned (Sample.c0, FDNull)))
    by run_sample.
  apply (updateField_unresolved Sample.c0 1 _ (JStr "nope") FDNull _ Hleaf Hload);
    [discriminate|].
  split; reflexivity.
Defined.

Lemma updateLeafOperator_no_rollback_witness :
  let l := Sample.leaf Sample.age Sample.in_op JNull in
  let c := Sample.one_leaf l in
  DomainSelector.updateLeafOperator 1 "between" c = Throw c /\
  DomainSelector.updateLeafOperator 1 "=" c =
    Throw (with_obj 1 (Leaf (Sample.leaf Sample.age Sample.eq_op JNull)) c).
Proof.
  intros l c.
  assert (Hl : heap (store c) !! 1%N = Some (Leaf l)) by (vm_compute; reflexivity).
  destruct (updateLeafOperator_no_rollback c 1 l "between" Hl) as (Hunknown & _).
  destruct (updateLeafOperator_no_rollback c 1 l "=" Hl) as (_ & Hnext & _).
  split; [by apply Hunknown|].
  apply (Hnext Sample.eq_op); [reflexivity|]. right. exists Sample.in_op.
  split; [reflexivity|]. split; [discriminate|]. split; [discriminate|].
  split; [split; discriminate|]. by left.
Defined.

Lemma single_multiple_single_witness :
  DomainSelector.updateLeafOperator 1 "in" Sample.c0 =
    DomainSelector.notifyChanges
      (SampleMore.c0_with
         (Leaf (Sample.leaf Sample.age Sample.in_op (JArr [JNum 10])))) /\
  DomainSelector.updateLeafOperator 1 "!="
    (SampleMore.c0_with
       (Leaf (Sample.leaf Sample.age Sample.in_op (JArr [JNum 10])))) =
    DomainSelector.notifyChanges
      (SampleMore.c0_with (Leaf (Sample.leaf Sample.age Sample.ne_op (JNum 10)))).
Proof.
  apply (single_multiple_single Sample.c0 1
           (Sample.leaf Sample.age Sample.eq_op (JNum 10))
           Sample.eq_op "in" Sample.in_op "!=" Sample.ne_op).
  - vm_compute. reflexivity.
  - reflexivity.
  - split; discriminate.
  - reflexivity.
  - reflexivity.
  - reflexivity.
  - split; discriminate.
Defined.

Lemma multiple_single_multiple_witness :
  let l := Sample.leaf Sample.age Sample.in_op (JArr [JNum 10; JNum 20]) in
  let c := Sample.one_leaf l in
  DomainSelector.updateLeafOperator 1 "=" c =
    DomainSelector.notifyChanges
      (with_obj 1 (Leaf (Sample.leaf Sample.age Sample.eq_op (JNum 10))) c) /\
  DomainSelector.updateLeafOperator 1 "in"
    (with_obj 1 (Leaf (Sample.leaf Sample.age Sample.eq_op (JNum 10))) c) =
    DomainSelector.notifyChanges
      (with_obj 1 (Leaf (Sample.leaf Sample.age Sample.in_op (JArr [JNum 10]))) c).
Proof.
  intros l c.
  apply (multiple_single_multiple c 1 l Sample.in_op "=" Sample.eq_op
           "in" Sample.in_op (JNum 10) [JNum 20]).
  - vm_compute. reflexivity.
  - reflexivity.
  - reflexivity.
  - reflexivity.
  - reflexivity.
  - split; discriminate.
  - reflexivity.
  - reflexivity.
Defined.

Lemma single_modes_that_differ_witness :
  let l := Sample.leaf SampleMore.name Sample.eq_op (JStr "abc") in
  let c := Sample.one_leaf l in
  @DomainSelector.updateLeafOperator SampleMore.imports 1 "like" c =
    @DomainSelector.notifyChanges SampleMore.imports
      (with_obj 1
         (Leaf (Sample.leaf SampleMore.name SampleMore.like_op (JStr "a"))) c).
Proof.
  intros l c.
  apply (@single_modes_that_differ SampleMore.imports c 1 l Sample.eq_op "like"
           SampleMore.like_op).
  - vm_compute. reflexivity.
  - reflexivity.
  - reflexivity.
  - split; discriminate.
  - split; discriminate.
  - discriminate.
Defined.

Lemma getOperatorsInfo_extends_registered_witness :
  exists offered : list Operator,
    DomainSelector.getOperatorsInfo
      (Sample.leaf Sample.age Sample.ilike_op (JStr "4")) =
      Some (Some <$> offered) /\
    [Sample.eq_op; Sample.ne_op; Sample.in_op; Sample.set_op] `prefix_of` offered /\
    length offered <= 5.
Proof.
  destruct (getOperatorsInfo_extends_registered
              (Sample.leaf Sample.age Sample.ilike_op (JStr "4")) Sample.ilike_op
              eq_refl)
    as (offered & Hret & Hpre & Hlen & _).
  exists offered. split; [exact Hret|]. split; [exact Hpre | exact Hlen].
Defined.

Lemma insertLeaf_inserts_witness :
  DomainSelector.insertLeaf 2 1 Sample.c0 =
    DomainSelector.notifyChanges SampleMore.c0_inserted /\
  heap (store Sample.c0) !! 5%N = None.
Proof.
  destruct (insertLeaf_inserts Sample.c0 2 1
              {| branch_operator := "AND"; branch_children := [1%N] |} 3
              (Sample.leaf Sample.age Sample.eq_op (JNum 1)))
    as (Hrun & Hfresh & _).
  - refine (bool_decide_unpack _ _). vm_compute. exact I.
  - vm_compute. reflexivity.
  - reflexivity.
  - vm_compute. reflexivity.
  - split; [exact Hrun | exact Hfresh].
Defined.

Lemma insertRootLeaf_appends_witness :
  DomainSelector.insertRootLeaf 2 Sample.c0 =
    DomainSelector.notifyChanges SampleMore.c0_inserted /\
  DomainSelector.insertLeaf 2 1 Sample.c0 = DomainSelector.insertRootLeaf 2 Sample.c0.
Proof.
  destruct (insertRootLeaf_appends Sample.c0 2
              {| branch_operator := "AND"; branch_children := [1%N] |} 3
              (Sample.leaf Sample.age Sample.eq_op (JNum 1)))
    as (Hrun & Hsame).
  - refine (bool_decide_unpack _ _). vm_compute. exact I.
  - vm_compute. reflexivity.
  - reflexivity.
  - vm_compute. reflexivity.
  - split; [exact Hrun|]. apply (Hsame [] 1%N); [reflexivity|].
    by intros ?%elem_of_nil.
Defined.

Lemma inserts_keep_store_witness :
  Runs (DomainSelector.perform (DomainSelector.InsertLeaf 2 1) Sample.c0)
       [EvUpdate "AND[(age = 10)(age = 1)]"]
       (Returned (SampleMore.c0_inserted, tt)) /\
  Store_wf (store SampleMore.c0_inserted) /\
  heap (store SampleMore.c0_inserted) !! 3%N =
    Some (Leaf (Sample.leaf Sample.age Sample.eq_op (JNum 1))).
Proof.
  assert (Hr : Runs (DomainSelector.perform (DomainSelector.InsertLeaf 2 1) Sample.c0)
                    [EvUpdate "AND[(age = 10)(age = 1)]"]
                    (Returned (SampleMore.c0_inserted, tt)))
    by run_sample.
  split; [exact Hr|].
  destruct (inserts_keep_store (DomainSelector.InsertLeaf 2 1) Sample.c0 2
              {| branch_operator := "AND"; branch_children := [1%N] |} 3
              (Sample.leaf Sample.age Sample.eq_op (JNum 1))
              [EvUpdate "AND[(age = 10)(age = 1)]"]
              (Returned (SampleMore.c0_inserted, tt))
              eq_refl) as (Hwf & _ & _ & Hleaf & _); [| | | |exact Hr|].
  - refine (bool_decide_unpack _ _). vm_compute. exact I.
  - vm_compute. reflexivity.
  - reflexivity.
  - vm_compute. reflexivity.
  - split; [exact Hwf | exact Hleaf].
Defined.

Lemma mutations_ask_little_witness :
  let tr := [EvLoadPath "res.partner" "active" (SampleMore.known "active");
             EvUpdate "AND[(active = true)]"] in
  Runs (DomainSelector.perform (DomainSelector.UpdateField 1 (JStr "active"))
          Sample.c0) tr
       (Returned (SampleMore.c0_with
                    (Leaf (Sample.leaf Sample.active Sample.eq_op (JBool true))),
                  tt)) /\
  (asked tr = [] \/
   exists path, JStr "active" = JStr path /\ path <> "" /\
                asked tr = [(resModel (props Sample.c0), path)]).
Proof.
  intros tr.
  assert (Hr : Runs (DomainSelector.perform
                       (DomainSelector.UpdateField 1 (JStr "active")) Sample.c0) tr
                    (Returned (SampleMore.c0_with
                                 (Leaf (Sample.leaf Sample.active Sample.eq_op
                                          (JBool true))), tt)))
    by run_sample.
  split; [exact Hr|].
  exact (mutations_ask_little (DomainSelector.UpdateField 1 (JStr "active")) _ _ _ Hr).
Defined.

Lemma updateLeafOperator_same_operator_witness :
  DomainSelector.updateLeafOperator 1 "=" Sample.c0 =
    DomainSelector.notifyChanges Sample.c0.
Proof.
  apply (updateLeafOperator_same_operator Sample.c0 1
           (Sample.leaf Sample.age Sample.eq_op (JNum 10)) "=" Sample.eq_op).
  - vm_compute. reflexivity.
  - reflexivity.
  - reflexivity.
Defined.

(** The class names of a read-only selector with and without a class of
    its own. *)
Example className_samples :
  className true (Some "o_field_domain ") = "o_read_mode o_field_domain" /\
  className false (Some "") = "o_edit_mode" /\
  className true None = "o_read_mode undefined".
Proof. repeat split; vm_compute; reflexivity. Qed.
